(** * traefik-internal-dns-updater: the reconciliation loop of [main.py]

    A shallow embedding of [src/main.py] and the properties of its
    reconciliation tick.  Strings are [string] (lists of [ascii]), the
    [dns] table is a finite map from hostname to router name, the
    [nsupdate] subprocess and the Traefik HTTP API are oracles that see
    the events issued so far, and Python's exceptions are an explicit
    error result threaded with the state. *)

From Stdlib Require Import ZArith Ascii String List Lia.
From stdpp Require Import gmap strings list fin_maps sorting.

Open Scope Z_scope.

(** ** Strings *)

Module Str.

(** The line feed: the one character [.] does not match, and the line
    terminator of the nsupdate transcript. *)
Definition LF : ascii := "010"%char.

(** [sep.join(l)] of Python. *)
Fixpoint join (sep : string) (l : list string) : string :=
  match l with
  | [] => ""
  | [x] => x
  | x :: rest => x +:+ sep +:+ join sep rest
  end.

(** [s.splitlines()] restricted to the terminator [\n]. *)
Fixpoint lines (s : string) : list string :=
  match s with
  | "" => []
  | String c s' =>
      if Ascii.eqb c LF then "" :: lines s'
      else match lines s' with
           | [] => [String c ""]
           | l :: ls => String c l :: ls
           end
  end.

(** No line feed occurs in [s]. *)
Fixpoint no_LF (s : string) : bool :=
  match s with
  | "" => true
  | String c s' => negb (Ascii.eqb c LF) && no_LF s'
  end.

End Str.

(** ** Regular expressions

    The fragment [hostname_regex] is written in: literal characters and
    one capturing group [(.+)], matched the way Python's backtracking
    engine does.  A greedy [+] first takes as many characters as it can
    and gives them back one at a time until the rest of the pattern
    matches. *)

Module Re.

Inductive item : Type :=
  | Lit (c : ascii)      (* a literal character, escaped or not *)
  | GroupDotPlus.        (* the group (.+), . being any character but \n *)

Definition pattern := list item.

(** [match_here p s]: match [p] at the start of [s]; the result is the
    text of the group and the rest of [s] after the match. *)
Fixpoint match_here (p : pattern) (s : string) {struct p} : option (string * string) :=
  match p with
  | [] => Some ("", s)
  | Lit c :: p' =>
      match s with
      | String c' s' => if Ascii.eqb c c' then match_here p' s' else None
      | "" => None
      end
  | GroupDotPlus :: p' =>
      (fix dot_plus (s : string) : option (string * string) :=
         match s with
         | "" => None
         | String c s' =>
             if Ascii.eqb c Str.LF then None
             else match dot_plus s' with
                  | Some (g, rest) => Some (String c g, rest)
                  | None =>
                      match match_here p' s' with
                      | Some (_, rest) => Some (String c "", rest)
                      | None => None
                      end
                  end
         end) s
  end.

(** [re.finditer(p, s)], as the list of the group of each match: scan
    from the left, and after a match resume at its end ([skip] counts
    the characters of the last match still to pass over). *)
Fixpoint finditer_from (p : pattern) (skip : nat) (s : string) {struct s} : list string :=
  match s with
  | "" => []
  | String _ s' =>
      match skip with
      | S k => finditer_from p k s'
      | O =>
          match match_here p s with
          | Some (g, rest) =>
              g :: finditer_from p (String.length s - String.length rest - 1) s'
          | None => finditer_from p 0 s'
          end
      end
  end.

Definition finditer (p : pattern) (s : string) : list string :=
  finditer_from p 0 s.

End Re.

(** ** Routers and hostnames *)

(** [class Router(TypedDict)]. *)
Record Router : Type := mkRouter {
  entryPoints : list string;
  service : string;
  rule : string;
  ruleSyntax : string;
  priority : Z;
  status : string;
  using_ : list string;        (* the field [using], a reserved word here *)
  name : string;
  provider : string
}.

(** [class Hostname(TypedDict)]. *)
Record Hostname : Type := mkHostname {
  hostname : string;
  router : Router
}.

(** The module-level configuration read from the environment. *)
Record Config : Type := mkConfig {
  TRAEFIK_ENTRYPOINTS : list string;
  DNS_SERVER : string;
  DNS_DOMAIN : string;
  TARGET_IP : string;
  UPDATE_INTERVAL : Z
}.

(** The values [os.getenv] falls back to. *)
Definition default_config : Config :=
  {| TRAEFIK_ENTRYPOINTS := ["web"; "websecure"];
     DNS_SERVER := "192.168.178.1";
     DNS_DOMAIN := "fritz.box";
     TARGET_IP := "192.168.178.2";
     UPDATE_INTERVAL := 60 |}.

(** [x in l] on a list of strings. *)
Definition str_in (x : string) (l : list string) : bool :=
  existsb (String.eqb x) l.

(** [filter_routers]. *)
Definition filter_routers (cfg : Config) (routers : list Router) : list Router :=
  List.filter
    (fun router =>
       existsb (fun entryPoint => str_in entryPoint (entryPoints router))
         (TRAEFIK_ENTRYPOINTS cfg))
    routers.

(** [hostname_regex = re.compile(r"Host\(`(.+)`\)")]. *)
Definition hostname_regex : Re.pattern :=
  [Re.Lit "H"; Re.Lit "o"; Re.Lit "s"; Re.Lit "t"; Re.Lit "("; Re.Lit "`";
   Re.GroupDotPlus;
   Re.Lit "`"; Re.Lit ")"]%char.

(** [extract_hostnames]. *)
Definition extract_hostnames (routers : list Router) : list Hostname :=
  List.flat_map
    (fun router =>
       List.map (fun g => {| hostname := g; router := router |})
         (Re.finditer hostname_regex (rule router)))
    routers.

(** ** The outside world *)

(** What a finished [nsupdate] process leaves behind: its exit status
    and what it wrote to its standard output and standard error. *)
Record Completed : Type := mkCompleted {
  returncode : Z;
  stdout_text : string;
  stderr_text : string
}.

(** One element of the decoded response: [Router] applied to the
    unpacked entry builds the dictionary of a JSON object, taken here to
    hold the fields the class declares, and raises on anything else. *)
Inductive Entry : Type :=
  | Mapping (r : Router)
  | NotMapping.

(** What [requests.get(...)] followed by [response.json()] and
    [len(parsed)] can do.  [ParsedIterable] is an array with its
    elements, or an object or a text, whose keys or characters are
    entries that are no mappings. *)
Inductive HttpOutcome : Type :=
  | RequestFails                       (* requests.get raises *)
  | InvalidJson                        (* response.json() raises *)
  | ParsedScalar                       (* null, a number, a boolean: len raises *)
  | ParsedIterable (entries : list Entry).

(** What the program does to the world, in order. *)
Inductive event : Type :=
  | Nsupdate (input : string) (rc : Z)     (* one run of /usr/bin/nsupdate *)
  | Upsert (h r : string)                  (* INSERT OR REPLACE INTO dns *)
  | Delete (h : string)                    (* DELETE FROM dns *)
  | Sleep (secs : Z).

(** The [dns] table (hostname is its primary key) and the events so far. *)
Record state : Type := mkState {
  db : gmap string string;
  trace : list event
}.

(** ** Exceptions and the monad of the program *)

Inductive exn : Type :=
  | Exception (arg : option string)    (* raise Exception(stderr) *)
  | RequestException
  | JSONDecodeError
  | TypeError
  | ValueError
  | OverflowError.

Inductive result (A : Type) : Type :=
  | Return (a : A)
  | Raise (e : exn).
Arguments Return {A} a.
Arguments Raise {A} e.

Definition M (A : Type) : Type := state -> result A * state.

Definition ret {A} (a : A) : M A := fun st => (Return a, st).

Definition raise {A} (e : exn) : M A := fun st => (Raise e, st).

Definition bind {A B} (m : M A) (k : A -> M B) : M B :=
  fun st =>
    match m st with
    | (Return a, st') => k a st'
    | (Raise e, st') => (Raise e, st')
    end.

(** [try: body  except Exception as e: handler]. *)
Definition try_except {A} (body : M A) (handler : exn -> M A) : M A :=
  fun st =>
    match body st with
    | (Return a, st') => (Return a, st')
    | (Raise e, st') => handler e st'
    end.

Declare Scope prog_scope.
Delimit Scope prog_scope with prog.
Notation "'do' x <- m ; k" := (bind m (fun x => k))
  (at level 10, x name, m at level 100, k at level 200) : prog_scope.
Notation "m ;; k" := (bind m (fun _ => k))
  (at level 100, k at level 200, right associativity) : prog_scope.
Open Scope prog_scope.

(** [for x in l: body(x)]. *)
Fixpoint for_each {A} (l : list A) (body : A -> M unit) : M unit :=
  match l with
  | [] => ret tt
  | x :: rest => body x ;; for_each rest body
  end.

Definition emit (ev : event) : M unit :=
  fun st => (Return tt, {| db := db st; trace := trace st ++ [ev] |}).

(** The logging calls: they write a line and never raise (a record whose
    arguments do not fit its message is reported by the handler). *)
Definition log : M unit := ret tt.

Definition exec {A} (m : M A) (st : state) : state := snd (m st).
Definition outcome {A} (m : M A) (st : state) : result A := fst (m st).

(** ** The store *)

(** [cursor.execute("INSERT OR REPLACE INTO dns (hostname, router) VALUES (?, ?)", ...)]. *)
Definition execute_insert_or_replace (h r : string) : M unit :=
  fun st => (Return tt, {| db := <[h := r]> (db st); trace := trace st ++ [Upsert h r] |}).

(** [cursor.execute("DELETE FROM dns WHERE hostname = ?", (hostname,))]. *)
Definition execute_delete (h : string) : M unit :=
  fun st => (Return tt, {| db := delete h (db st); trace := trace st ++ [Delete h] |}).

(** The rows of [SELECT hostname FROM dns WHERE hostname NOT IN (?)]
    for the one bound value [v]: the hostnames different from [v], in
    the order of the index of the primary key the query is answered
    from, that is by ascending hostname, compared byte by byte. *)
Definition select_hostname_not_in (v : string) (d : gmap string string) : list string :=
  merge_sort String.le
    (List.filter (fun h => negb (String.eqb h v)) (map fst (map_to_list d))).

(** ** The program *)

Section Program.

Variable cfg : Config.
(** The nsupdate process, given the events so far and its input. *)
Variable nsupdate : list event -> string -> Completed.
(** The Traefik API, given the events so far. *)
Variable requests_get : list event -> HttpOutcome.

(** [fetch_routers]: an entry that is no mapping is printed and passed over. *)
Definition fetch_routers : M (list Router) :=
  fun st =>
    match requests_get (trace st) with
    | RequestFails => (Raise RequestException, st)
    | InvalidJson => (Raise JSONDecodeError, st)
    | ParsedScalar => (Raise TypeError, st)
    | ParsedIterable entries =>
        (Return
           (flat_map (fun entry =>
                        match entry with
                        | Mapping r => [r]
                        | NotMapping => []
                        end) entries),
         st)
    end.

(** The text [update_dns_entry] writes to the standard input of nsupdate. *)
Definition nsupdate_input (h : string) (delete : bool) : string :=
  let nl := String Str.LF "" in
  let input :=
    "server " +:+ DNS_SERVER cfg +:+ nl +:+
    "zone " +:+ DNS_DOMAIN cfg +:+ nl +:+
    "update delete " +:+ h +:+ " A" +:+ nl in
  let input :=
    if negb delete
    then input +:+ "update add " +:+ h +:+ " 3600 A " +:+ TARGET_IP cfg +:+ nl
    else input in
  input +:+ "send" +:+ nl +:+ "quit" +:+ nl.

(** [subprocess.Popen(["/usr/bin/nsupdate", "-4"], stdin=PIPE, stdout=PIPE, text=True)]
    then [proc.communicate(input)] and [proc.wait()]: the process is
    taken to start, and a stream that was not opened as a pipe comes
    back as [None]. *)
Definition stdout_piped : bool := true.
Definition stderr_piped : bool := false.

Definition communicate (input : string) : M (Z * option string * option string) :=
  fun st =>
    let proc := nsupdate (trace st) input in
    (Return (returncode proc,
             (if stdout_piped then Some (stdout_text proc) else None),
             (if stderr_piped then Some (stderr_text proc) else None)),
     {| db := db st; trace := trace st ++ [Nsupdate input (returncode proc)] |}).

(** [update_dns_entry]. *)
Definition update_dns_entry (h : string) (delete : bool) : M unit :=
  log ;;
  do r <- communicate (nsupdate_input h delete) ;
  let '(rc, stdout, stderr) := r in
  if negb (rc =? 0) then raise (Exception stderr)
  else log.

(** [update_db]. *)
Definition update_db (h : Hostname) : M unit :=
  log ;;
  try_except
    (execute_insert_or_replace (hostname h) (name (router h)))
    (fun e => log).

(** The hostnames [cleanup_old_dns_entries] fetches as old. *)
Definition old_hostnames (hostnames : list Hostname) (d : gmap string string) : list string :=
  select_hostname_not_in (Str.join "," (map hostname hostnames)) d.

(** [cleanup_old_dns_entries]. *)
Definition cleanup_old_dns_entries (hostnames : list Hostname) : M unit :=
  log ;;
  try_except
    (do old <- (fun st => (Return (old_hostnames hostnames (db st)), st)) ;
     for_each old
       (fun h =>
          try_except
            (update_dns_entry h true ;;
             execute_delete h ;;
             log)
            (fun e => log)) ;;
     ret tt)
    (fun e => log).

(** The loop of [update_loop] over the desired hostnames. *)
Definition publish (hostnames : list Hostname) : M unit :=
  for_each hostnames
    (fun h =>
       try_except
         (update_dns_entry (hostname h) false ;;
          update_db h)
         (fun e => log)).

(** [update_loop]: one tick. *)
Definition update_loop : M unit :=
  do routers <- fetch_routers ;
  let filtered_routers := filter_routers cfg routers in
  let hostnames := extract_hostnames filtered_routers in
  publish hostnames ;;
  cleanup_old_dns_entries hostnames.

(** The longest sleep, in seconds, whose length in nanoseconds fits the
    signed 64-bit clock [time.sleep] converts it to. *)
Definition SLEEP_MAX : Z := (2 ^ 63 - 1) / 10 ^ 9.

(** [sleep(secs)] for an integer [secs]: a length that does not fit the
    clock raises [OverflowError], a negative one [ValueError]. *)
Definition sleep (secs : Z) : M unit :=
  if (secs <? - SLEEP_MAX) || (SLEEP_MAX <? secs) then raise OverflowError
  else if secs <? 0 then raise ValueError
  else emit (Sleep secs).


(** One turn of the [while True] loop at the end of the module. *)
Definition iteration : M unit :=
  try_except (log ;; update_loop) (fun e => log) ;;
  log ;;
  sleep (UPDATE_INTERVAL cfg).

(** The first [n] turns of [while True]; [Raise e] is the process
    dying with [e] in one of them. *)
Fixpoint main_loop (n : nat) : M unit :=
  match n with
  | O => ret tt
  | S k => iteration ;; main_loop k
  end.

End Program.

(** ** Vocabulary of the properties *)

(** *** The lines of the transcript *)

Section TranscriptLines.

Variable cfg : Config.

Definition server_line : string := "server " +:+ DNS_SERVER cfg.
Definition zone_line : string := "zone " +:+ DNS_DOMAIN cfg.
Definition delete_line (h : string) : string := "update delete " +:+ h +:+ " A".
Definition add_line (h : string) : string :=
  "update add " +:+ h +:+ " 3600 A " +:+ TARGET_IP cfg.

(** The configuration and the hostname fit on a line each. *)
Definition one_line_each (h : string) : Prop :=
  Str.no_LF (DNS_SERVER cfg) = true /\ Str.no_LF (DNS_DOMAIN cfg) = true /\
  Str.no_LF (TARGET_IP cfg) = true /\ Str.no_LF h = true.

End TranscriptLines.

(** *** Events and steps *)

(** The effect of an event on the store. *)
Definition apply_event (d : gmap string string) (ev : event) : gmap string string :=
  match ev with
  | Upsert h r => <[h := r]> d
  | Delete h => delete h d
  | _ => d
  end.

Definition replay (evs : list event) (d : gmap string string) : gmap string string :=
  fold_left apply_event evs d.

Definition is_write (ev : event) : bool :=
  match ev with
  | Upsert _ _ | Delete _ => true
  | _ => false
  end.


Section Steps.

Variable cfg : Config.
Variable nsupdate : list event -> string -> Completed.

(** The exit status of the mutation of [h] started in state [st]. *)
Definition exit_status (h : string) (delete : bool) (st : state) : Z :=
  returncode (nsupdate (trace st) (nsupdate_input cfg h delete)).

(** One turn of the publishing loop. *)
Definition publish_step (st : state) (h : Hostname) : state :=
  let input := nsupdate_input cfg (hostname h) false in
  let rc := exit_status (hostname h) false st in
  if rc =? 0
  then {| db := <[hostname h := name (router h)]> (db st);
          trace := trace st ++ [Nsupdate input rc; Upsert (hostname h) (name (router h))] |}
  else {| db := db st; trace := trace st ++ [Nsupdate input rc] |}.

(** One turn of the retiring loop. *)
Definition retire_step (st : state) (h : string) : state :=
  let input := nsupdate_input cfg h true in
  let rc := exit_status h true st in
  if rc =? 0
  then {| db := delete h (db st); trace := trace st ++ [Nsupdate input rc; Delete h] |}
  else {| db := db st; trace := trace st ++ [Nsupdate input rc] |}.

(** When a store write is in order: right after the successful
    mutation it records. *)
Definition justifies (prev : option event) (ev : event) : Prop :=
  match ev with
  | Upsert h r => prev = Some (Nsupdate (nsupdate_input cfg h false) 0)
  | Delete h => prev = Some (Nsupdate (nsupdate_input cfg h true) 0)
  | _ => True
  end.

Fixpoint writes_justified (prev : option event) (tr : list event) : Prop :=
  match tr with
  | [] => True
  | ev :: rest => justifies prev ev /\ writes_justified (Some ev) rest
  end.

(** [st'] comes from [st] by events whose store writes are all in
    order, and its store is the one those writes build. *)
Definition extends (st st' : state) : Prop :=
  exists new,
    trace st' = trace st ++ new /\
    writes_justified None new /\
    db st' = replay new (db st).

(** The error path of the mutator, as the spec words it: on a non-zero
    exit status the exception carries the error output, *)
Definition raises_with_diagnostic (h : string) (delete : bool) (st : state) : Prop :=
  let proc := nsupdate (trace st) (nsupdate_input cfg h delete) in
  returncode proc <> 0 ->
  outcome (update_dns_entry cfg nsupdate h delete) st
    = Raise (Exception (Some (stderr_text proc))).

(** and it raises exactly on a non-zero exit status or error output. *)
Definition raises_iff_reported (h : string) (delete : bool) (st : state) : Prop :=
  let proc := nsupdate (trace st) (nsupdate_input cfg h delete) in
  (exists e, outcome (update_dns_entry cfg nsupdate h delete) st = Raise e) <->
  (returncode proc <> 0 \/ stderr_text proc <> "").

End Steps.

(** ** Scenarios *)

Module Scenario.

Definition route (n r : string) : Router :=
  {| entryPoints := ["web"]; service := n; rule := r; ruleSyntax := "";
     priority := 0; status := "enabled"; using_ := ["web"]; name := n;
     provider := "docker" |}.

Definition empty_state : state := {| db := ∅; trace := [] |}.

(** nsupdate always exits with 0. *)
Definition always_ok : list event -> string -> Completed :=
  fun _ _ => mkCompleted 0 "" "".

(** The first run of nsupdate exits with 2, the later ones with 0. *)
Definition first_fails : list event -> string -> Completed :=
  fun tr _ =>
    match tr with
    | [] => mkCompleted 2 "" "update failed: REFUSED"
    | _ => mkCompleted 0 "" ""
    end.

(** nsupdate exits with 2 after writing a diagnostic to its error output. *)
Definition refused : list event -> string -> Completed :=
  fun _ _ => mkCompleted 2 "" "update failed: REFUSED".

(** nsupdate writes to its error output and exits with 0. *)
Definition complains : list event -> string -> Completed :=
  fun _ _ => mkCompleted 0 "" "; Communication with 192.168.178.1#53 failed: timed out".


(** Persisted hostnames a, b, c; desired hostnames a, c. *)
Definition persisted_abc : gmap string string :=
  <["a" := "r1"]> (<["b" := "r2"]> (<["c" := "r3"]> ∅)).
Definition desired_ac : list Hostname :=
  [ {| hostname := "a"; router := route "r1" "Host(`a`)" |};
    {| hostname := "c"; router := route "r3" "Host(`c`)" |} ].

(** The API reports two routes, one for a and one for c. *)
Definition routes_ac : list event -> HttpOutcome :=
  fun _ => ParsedIterable [Mapping (route "r1" "Host(`a`)"); Mapping (route "r3" "Host(`c`)")].

Definition two_hosts_rule : string := "Host(`a.example.com`) || Host(`b.example.com`)".
Definition host_and_path_rule : string := "Host(`a.example.com`) && PathPrefix(`/api`)".
Definition no_host_rule : string := "PathPrefix(`/api`)".

(** A store with two entries. *)
Definition persisted_xy : gmap string string :=
  <["x.fritz.box" := "r1"]> (<["y.fritz.box" := "r2"]> ∅).

Definition hx : Hostname := {| hostname := "x"; router := route "rx" "Host(`x`)" |}.
Definition hy : Hostname := {| hostname := "y"; router := route "ry" "Host(`y`)" |}.
Definition hz : Hostname := {| hostname := "z"; router := route "rz" "Host(`z`)" |}.

End Scenario.

(** ** The rest of the module: configuration, and more vocabulary *)

Module Env.

(** [s.split(sep)] of Python for a separator of one character: every
    occurrence splits, empty pieces are kept, and the empty text gives
    one empty piece. *)
Fixpoint split (sep : ascii) (s : string) : list string :=
  match s with
  | "" => [""]
  | String c s' =>
      if Ascii.eqb c sep then "" :: split sep s'
      else match split sep s' with
           | [] => [String c ""]
           | x :: xs => String c x :: xs
           end
  end.

(** The character [c] occurs in [s]. *)
Fixpoint has_char (c : ascii) (s : string) : bool :=
  match s with
  | "" => false
  | String c' s' => Ascii.eqb c' c || has_char c s'
  end.

(** [os.getenv(key, fallback)], given the value of the variable if it is set. *)
Definition getenv (value : option string) (fallback : string) : string :=
  default fallback value.

(** [TRAEFIK_ENTRYPOINTS = os.getenv("TRAEFIK_ENTRYPOINTS", "web,websecure").split(",")]. *)
Definition entrypoints_of_env (value : option string) : list string :=
  split ","%char (getenv value "web,websecure").

End Env.

(** The inputs of the runs of nsupdate in a trace, in order. *)
Fixpoint runs (tr : list event) : list string :=
  match tr with
  | [] => []
  | Nsupdate input _ :: rest => input :: runs rest
  | _ :: rest => runs rest
  end.

(** Every persisted hostname is a non-empty text without line feed. *)
Definition hostnames_wf (d : gmap string string) : Prop :=
  forall k, is_Some (d !! k) -> k <> "" /\ Str.no_LF k = true.

(** The upsert of one record, and of a sequence of records in order. *)
Definition upsert (d : gmap string string) (h : Hostname) : gmap string string :=
  <[hostname h := name (router h)]> d.
Definition upsert_all (hs : list Hostname) (d : gmap string string) : gmap string string :=
  fold_left upsert hs d.

Module Fixture.

Definition svc : Router :=
  {| entryPoints := ["web"]; service := "svc"; rule := "Host(`svc.local`)";
     ruleSyntax := ""; priority := 0; status := "enabled"; using_ := ["web"];
     name := "r1"; provider := "docker" |}.

Definition metrics : Router :=
  {| entryPoints := ["metrics"]; service := "prom"; rule := "Host(`prom.local`)";
     ruleSyntax := ""; priority := 0; status := "enabled"; using_ := ["metrics"];
     name := "r2"; provider := "docker" |}.

Definition svc_hostname : Hostname := {| hostname := "svc.local"; router := svc |}.
Definition prom_hostname : Hostname := {| hostname := "prom.local"; router := metrics |}.

(** The API reports [svc] and [metrics]. *)
Definition api_svc : list event -> HttpOutcome :=
  fun _ => ParsedIterable [Mapping svc; Mapping metrics].

(** The same response with an entry that is no object in between. *)
Definition api_svc_bad : list event -> HttpOutcome :=
  fun _ => ParsedIterable [Mapping svc; NotMapping; Mapping metrics].

(** Both routers on the entry point web. *)
Definition api_two : list event -> HttpOutcome :=
  fun _ => ParsedIterable [Mapping svc; Mapping (Scenario.route "r3" "Host(`c`)")].


(** nsupdate never exits with 0. *)
Definition always_fails : list event -> string -> Completed :=
  fun _ _ => mkCompleted 1 "" "".

Definition stale_store : gmap string string :=
  <["old.local" := "r9"]> (<["svc.local" := "r0"]> ∅).

End Fixture.

(** * Properties *)

(** ** Strings and lines *)

Module StrFacts.
Import Str.

Lemma app_cons (c : ascii) (s t : string) : String c s +:+ t = String c (s +:+ t).
Proof. reflexivity. Qed.

Lemma app_assoc (a b c : string) : (a +:+ b) +:+ c = a +:+ b +:+ c.
Proof.
  induction a as [|x a IH]; [reflexivity|].
  rewrite !app_cons. by rewrite IH.
Qed.

Lemma no_LF_app (a b : string) : no_LF (a +:+ b) = no_LF a && no_LF b.
Proof.
  induction a as [|x a IH]; [reflexivity|].
  rewrite app_cons. simpl. rewrite IH. by rewrite andb_assoc.
Qed.

Lemma length_app (a b : string) :
  String.length (a +:+ b) = (String.length a + String.length b)%nat.
Proof.
  induction a as [|x a IH]; [reflexivity|].
  rewrite app_cons. simpl. by rewrite IH.
Qed.

Lemma join_cons2 (sep x y : string) (l : list string) :
  join sep (x :: y :: l) = x +:+ sep +:+ join sep (y :: l).
Proof. reflexivity. Qed.

(** A joined text is at least as long as each of its members, *)
Lemma member_le_join (sep h : string) (l : list string) :
  In h l -> (String.length h <= String.length (join sep l))%nat.
Proof.
  induction l as [|x [|y l] IH]; intros Hin.
  - destruct Hin.
  - destruct Hin as [<-|[]]. simpl. lia.
  - rewrite join_cons2, !length_app.
    destruct Hin as [<-|Hin]; [lia|].
    specialize (IH Hin). lia.
Qed.

(** and longer than each of them when it joins two texts or more with a
    separator that is not empty: no member is the joined text. *)
Lemma join_ne_member (sep h : string) (l : list string) :
  sep <> "" -> In h l -> (2 <= List.length l)%nat -> h <> join sep l.
Proof.
  intros Hsep Hin Hlen Heq.
  assert (Hs : (1 <= String.length sep)%nat).
  { destruct sep; [congruence | simpl; lia]. }
  destruct l as [|x [|y l]]; simpl in Hlen; try lia.
  apply (f_equal String.length) in Heq.
  rewrite join_cons2, !length_app in Heq.
  destruct Hin as [<-|Hin]; [lia|].
  pose proof (member_le_join sep h (y :: l) Hin). lia.
Qed.

(** A text without line feed followed by a line feed is one line. *)
Lemma lines_terminated (s rest : string) :
  no_LF s = true -> lines (s +:+ String LF rest) = s :: lines rest.
Proof.
  induction s as [|c s IH]; intros H.
  - reflexivity.
  - simpl in H. apply andb_prop in H as [Hc Hs].
    rewrite app_cons. simpl.
    destruct (Ascii.eqb c LF); [discriminate|].
    by rewrite (IH Hs).
Qed.

End StrFacts.

(** ** The transcript of the DNS mutator *)

Section Transcript.

Variable cfg : Config.
Variable nsupdate : list event -> string -> Completed.

Lemma nsupdate_input_lines (h : string) (delete : bool) :
  one_line_each cfg h ->
  Str.lines (nsupdate_input cfg h delete) =
    [server_line cfg; zone_line cfg; delete_line h]
      ++ (if delete then [] else [add_line cfg h])
      ++ ["send"; "quit"].
Proof.
  intros (Hs & Hz & Ht & Hh).
  assert (E : nsupdate_input cfg h delete =
              server_line cfg +:+ String Str.LF
                (zone_line cfg +:+ String Str.LF
                   (delete_line h +:+ String Str.LF
                      (if delete
                       then "send" +:+ String Str.LF ("quit" +:+ String Str.LF "")
                       else add_line cfg h +:+ String Str.LF
                              ("send" +:+ String Str.LF ("quit" +:+ String Str.LF "")))))).
  { unfold nsupdate_input, server_line, zone_line, delete_line, add_line.
    destruct delete; cbv zeta; simpl negb; cbv iota;
      rewrite !StrFacts.app_assoc; reflexivity. }
  rewrite E.
  rewrite !StrFacts.lines_terminated.
  - destruct delete.
    + reflexivity.
    + rewrite StrFacts.lines_terminated; [reflexivity|].
      unfold add_line. rewrite !StrFacts.no_LF_app, Hh, Ht. reflexivity.
  - unfold delete_line. rewrite !StrFacts.no_LF_app, Hh. reflexivity.
  - unfold zone_line. rewrite StrFacts.no_LF_app, Hz. reflexivity.
  - unfold server_line. rewrite StrFacts.no_LF_app, Hs. reflexivity.
Qed.

(** What one call of the mutator does: one run of nsupdate on its
    transcript, and an exception, carrying [None], exactly on a non-zero
    exit status. *)
Lemma update_dns_entry_eq (h : string) (delete : bool) (st : state) :
  update_dns_entry cfg nsupdate h delete st =
    let input := nsupdate_input cfg h delete in
    let rc := returncode (nsupdate (trace st) input) in
    ((if rc =? 0 then Return tt else Raise (Exception None)),
     {| db := db st; trace := trace st ++ [Nsupdate input rc] |}).
Proof.
  unfold update_dns_entry, bind, log, ret, communicate, raise. cbv zeta.
  destruct (returncode _ =? 0); reflexivity.
Qed.

(** C4. For every hostname and mode (the configuration and the hostname
    fitting on a line each), the mutator runs nsupdate once on a
    transcript whose lines begin with the server and zone directives,
    contain the line [update delete <hostname> A], contain the line
    [update add <hostname> 3600 A <TARGET_IP>] if and only if the mode
    is add, and end with [send] followed by [quit]. *)
Theorem update_dns_entry_transcript (h : string) (delete : bool) (st : state) :
  one_line_each cfg h ->
  exists rc,
    trace (exec (update_dns_entry cfg nsupdate h delete) st)
      = trace st ++ [Nsupdate (nsupdate_input cfg h delete) rc] /\
    let ls := Str.lines (nsupdate_input cfg h delete) in
    (exists rest, ls = server_line cfg :: zone_line cfg :: rest) /\
    In (delete_line h) ls /\
    (In (add_line cfg h) ls <-> delete = false) /\
    (exists front, ls = front ++ ["send"; "quit"]).
Proof.
  intros Hone.
  exists (returncode (nsupdate (trace st) (nsupdate_input cfg h delete))).
  split.
  { unfold exec. rewrite update_dns_entry_eq. reflexivity. }
  cbv zeta. rewrite (nsupdate_input_lines h delete Hone).
  split; [eexists; reflexivity|].
  split; [simpl; auto|].
  split.
  - destruct delete; simpl.
    + split; [|discriminate].
      unfold add_line, server_line, zone_line, delete_line.
      intros [H|[H|[H|[H|[H|[]]]]]]; discriminate H.
    + split; [reflexivity|]. auto.
  - destruct delete.
    + exists [server_line cfg; zone_line cfg; delete_line h]. reflexivity.
    + exists [server_line cfg; zone_line cfg; delete_line h; add_line cfg h]. reflexivity.
Qed.

End Transcript.

(** ** The regular expression and the extraction *)

Module ReFacts.
Import Re.

(** The group of [(.+)] is never empty and never spans a line feed;
    what follows it is matched by the rest of the pattern. *)
Lemma dot_plus_inv (p : pattern) (s g rest : string) :
  match_here (GroupDotPlus :: p) s = Some (g, rest) ->
  g <> "" /\ Str.no_LF g = true /\
  exists g' tail, s = g +:+ tail /\ match_here p tail = Some (g', rest).
Proof.
  revert g rest. induction s as [|c s IH]; intros g rest H.
  - discriminate H.
  - simpl in H. destruct (Ascii.eqb c Str.LF) eqn:Hc; [discriminate H|].
    change ((fix dot_plus (s0 : string) : option (string * string) := _) s)
      with (match_here (GroupDotPlus :: p) s) in H.
    destruct (match_here (GroupDotPlus :: p) s) as [[g1 rest1]|] eqn:Hrec.
    + injection H as <- <-.
      destruct (IH _ _ eq_refl) as (_ & Hnl & g' & tail & -> & Htail).
      split; [discriminate|]. split.
      * simpl. by rewrite Hc, Hnl.
      * exists g', tail. split; [reflexivity | exact Htail].
    + destruct (match_here p s) as [[g1 rest1]|] eqn:Hp; [|discriminate H].
      injection H as <- <-.
      split; [discriminate|]. split.
      * simpl. by rewrite Hc.
      * exists g1, s. split; [reflexivity | exact Hp].
Qed.

Lemma lit_inv (c : ascii) (p : pattern) (s g rest : string) :
  match_here (Lit c :: p) s = Some (g, rest) ->
  exists s', s = String c s' /\ match_here p s' = Some (g, rest).
Proof.
  destruct s as [|c' s']; simpl; [discriminate|].
  destruct (Ascii.eqb c c') eqn:Hc; [|discriminate].
  apply Ascii.eqb_eq in Hc as <-. eauto.
Qed.

(** Every group [finditer] returns is the group of a match. *)
Lemma finditer_from_groups (p : pattern) (P : string -> Prop) :
  (forall s g rest, match_here p s = Some (g, rest) -> P g) ->
  forall s skip, Forall P (finditer_from p skip s).
Proof.
  intros HP. induction s as [|c s IH]; intros skip; simpl.
  - constructor.
  - destruct skip as [|k]; [|apply IH].
    destruct (match_here p (String c s)) as [[g rest]|] eqn:Hm.
    + constructor; [eapply HP; eassumption | apply IH].
    + apply IH.
Qed.

End ReFacts.

(** A match of [hostname_regex] is [Host(`], a non-empty group on one
    line, and [`)]. *)
Lemma hostname_regex_match (s g rest : string) :
  Re.match_here hostname_regex s = Some (g, rest) ->
  s = "Host(`" +:+ g +:+ "`)" +:+ rest /\ g <> "" /\ Str.no_LF g = true.
Proof.
  unfold hostname_regex. intros H.
  do 6 (apply ReFacts.lit_inv in H as (? & -> & H)).
  apply ReFacts.dot_plus_inv in H as (Hne & Hnl & g' & tail & -> & H).
  do 2 (apply ReFacts.lit_inv in H as (? & -> & H)).
  simpl in H. injection H as <- <-.
  split; [reflexivity|]. split; assumption.
Qed.

(** Every extracted hostname is a non-empty text without line feed. *)
Lemma extract_hostnames_wf (routers : list Router) :
  Forall (fun h => hostname h <> "" /\ Str.no_LF (hostname h) = true)
    (extract_hostnames routers).
Proof.
  unfold extract_hostnames. induction routers as [|r routers IH]; simpl.
  - constructor.
  - apply Forall_app. split; [|exact IH].
    apply Forall_map. simpl.
    apply ReFacts.finditer_from_groups.
    intros s g rest H. apply hostname_regex_match in H. tauto.
Qed.

(** ** The loops as folds of their steps *)

Section StepFacts.

Variable cfg : Config.
Variable nsupdate : list event -> string -> Completed.
Variable requests_get : list event -> HttpOutcome.

Lemma for_each_app {A} (l1 l2 : list A) (body : A -> M unit) (st : state) :
  for_each (l1 ++ l2) body st =
    match for_each l1 body st with
    | (Return _, st') => for_each l2 body st'
    | (Raise e, st') => (Raise e, st')
    end.
Proof.
  revert st. induction l1 as [|x l1 IH]; intros st; simpl.
  - reflexivity.
  - unfold bind. destruct (body x st) as [[[]|e] st1]; [apply IH | reflexivity].
Qed.

(** A loop whose body always returns is the fold of its steps. *)
Lemma for_each_fold {A} (body : A -> M unit) (step : state -> A -> state) :
  (forall x st, body x st = (Return tt, step st x)) ->
  forall l st, for_each l body st = (Return tt, fold_left step l st).
Proof.
  intros Hbody. induction l as [|x l IH]; intros st; simpl.
  - reflexivity.
  - unfold bind. rewrite Hbody. apply IH.
Qed.

Lemma publish_eq (hostnames : list Hostname) (st : state) :
  publish cfg nsupdate hostnames st
    = (Return tt, fold_left (publish_step cfg nsupdate) hostnames st).
Proof.
  apply for_each_fold. clear. intros h st.
  unfold try_except, bind. rewrite update_dns_entry_eq. cbv zeta.
  unfold publish_step, exit_status. cbv zeta.
  destruct (returncode _ =? 0) eqn:Hrc.
  - unfold update_db, bind, log, ret, try_except, execute_insert_or_replace. simpl.
    rewrite <- app_assoc. reflexivity.
  - reflexivity.
Qed.

Lemma cleanup_eq (hostnames : list Hostname) (st : state) :
  cleanup_old_dns_entries cfg nsupdate hostnames st =
    (Return tt, fold_left (retire_step cfg nsupdate) (old_hostnames hostnames (db st)) st).
Proof.
  unfold cleanup_old_dns_entries, bind, log, ret, try_except. simpl.
  rewrite (for_each_fold _ (retire_step cfg nsupdate)).
  - reflexivity.
  - clear. intros h st.
    rewrite update_dns_entry_eq. cbv zeta.
    unfold retire_step, exit_status. cbv zeta.
    destruct (returncode _ =? 0) eqn:Hrc.
    + unfold execute_delete. simpl. rewrite <- app_assoc. reflexivity.
    + reflexivity.
Qed.

(** A tick is the fetch, then the publishing steps, then the retiring
    steps over what the query selects from the store after publishing. *)
Lemma update_loop_eq (st : state) :
  update_loop cfg nsupdate requests_get st =
    match fetch_routers requests_get st with
    | (Raise e, _) => (Raise e, st)
    | (Return routers, _) =>
        let hostnames := extract_hostnames (filter_routers cfg routers) in
        let st1 := fold_left (publish_step cfg nsupdate) hostnames st in
        (Return tt,
         fold_left (retire_step cfg nsupdate) (old_hostnames hostnames (db st1)) st1)
    end.
Proof.
  unfold update_loop, bind, fetch_routers.
  destruct (requests_get (trace st)); try reflexivity.
  cbv zeta. rewrite publish_eq. apply cleanup_eq.
Qed.

Lemma update_loop_total (st : state) :
  update_loop cfg nsupdate requests_get st
    = (Return tt, exec (update_loop cfg nsupdate requests_get) st) \/
  exists e, update_loop cfg nsupdate requests_get st = (Raise e, st).
Proof.
  unfold exec. rewrite update_loop_eq.
  destruct (fetch_routers requests_get st) as [[routers|e] st1]; simpl; eauto.
Qed.

Lemma fold_left_invariant {A} (P : state -> Prop) (Q : A -> Prop)
    (step : state -> A -> state) :
  (forall st x, Q x -> P st -> P (step st x)) ->
  forall l, Forall Q l -> forall st, P st -> P (fold_left step l st).
Proof.
  intros Hstep l Hl. induction Hl as [|x l Hx Hl IH]; intros st Hst; simpl.
  - exact Hst.
  - apply IH, Hstep; assumption.
Qed.

(** *** Events of a tick *)

Lemma writes_justified_weaken (tr : list event) (prev : option event) :
  writes_justified cfg None tr -> writes_justified cfg prev tr.
Proof.
  destruct tr as [|ev tr]; simpl; [auto|].
  intros [Hj Hrest]. split; [|exact Hrest].
  destruct ev; simpl in *; try exact I; discriminate Hj.
Qed.

Lemma writes_justified_app (a b : list event) (prev : option event) :
  writes_justified cfg prev a -> writes_justified cfg None b ->
  writes_justified cfg prev (a ++ b).
Proof.
  revert prev. induction a as [|ev a IH]; intros prev Ha Hb; simpl in *.
  - by apply writes_justified_weaken.
  - destruct Ha as [Hj Ha]. split; [exact Hj|]. by apply IH.
Qed.

(** After a failed mutation the next event is not a store write. *)
Lemma writes_justified_after_failure (tr : list event) (prev : option event) :
  writes_justified cfg prev tr ->
  forall pre input rc ev post,
    tr = pre ++ Nsupdate input rc :: ev :: post -> rc <> 0 -> is_write ev = false.
Proof.
  intros Hwj pre. revert tr prev Hwj.
  induction pre as [|x pre IH]; intros tr prev Hwj input rc ev post -> Hrc; simpl in Hwj.
  - destruct Hwj as (_ & Hev & _).
    destruct ev; simpl in *; try reflexivity; congruence.
  - destruct Hwj as [_ Hwj]. eapply IH; eauto.
Qed.

Lemma replay_app (a b : list event) (d : gmap string string) :
  replay (a ++ b) d = replay b (replay a d).
Proof. apply fold_left_app. Qed.

Lemma extends_refl (st : state) : extends cfg st st.
Proof. exists []. rewrite app_nil_r. simpl. auto. Qed.

Lemma extends_trans (st1 st2 st3 : state) :
  extends cfg st1 st2 -> extends cfg st2 st3 -> extends cfg st1 st3.
Proof.
  intros (n1 & T1 & J1 & D1) (n2 & T2 & J2 & D2).
  exists (n1 ++ n2). split; [|split].
  - rewrite T2, T1. by rewrite app_assoc.
  - by apply writes_justified_app.
  - rewrite D2, D1. by rewrite replay_app.
Qed.

Lemma extends_fold {A} (step : state -> A -> state) :
  (forall st x, extends cfg st (step st x)) ->
  forall l st, extends cfg st (fold_left step l st).
Proof.
  intros Hstep. induction l as [|x l IH]; intros st; simpl.
  - apply extends_refl.
  - eapply extends_trans; [apply Hstep | apply IH].
Qed.

Lemma publish_step_extends (st : state) (h : Hostname) :
  extends cfg st (publish_step cfg nsupdate st h).
Proof.
  unfold publish_step. cbv zeta.
  destruct (exit_status cfg nsupdate (hostname h) false st =? 0) eqn:Hrc.
  - apply Z.eqb_eq in Hrc. rewrite Hrc.
    eexists. split; [reflexivity|]. simpl. auto.
  - eexists. split; [reflexivity|]. simpl. auto.
Qed.

Lemma retire_step_extends (st : state) (h : string) :
  extends cfg st (retire_step cfg nsupdate st h).
Proof.
  unfold retire_step. cbv zeta.
  destruct (exit_status cfg nsupdate h true st =? 0) eqn:Hrc.
  - apply Z.eqb_eq in Hrc. rewrite Hrc.
    eexists. split; [reflexivity|]. simpl. auto.
  - eexists. split; [reflexivity|]. simpl. auto.
Qed.

Lemma update_loop_extends (st : state) :
  extends cfg st (exec (update_loop cfg nsupdate requests_get) st).
Proof.
  unfold exec. rewrite update_loop_eq.
  destruct (fetch_routers requests_get st) as [[routers|e] st1]; simpl.
  - eapply extends_trans; [|apply extends_fold, retire_step_extends].
    apply extends_fold, publish_step_extends.
  - apply extends_refl.
Qed.

(** *** Sleeps *)




(** *** Hostnames in the store *)

(** A tick writes no entry under the empty hostname: every hostname it
    upserts is the group of a match of [(.+)]. *)
Lemma update_loop_keeps_hostnames_nonempty (st : state) :
  db st !! "" = None ->
  db (exec (update_loop cfg nsupdate requests_get) st) !! "" = None.
Proof.
  intros Hst. unfold exec. rewrite update_loop_eq.
  destruct (fetch_routers requests_get st) as [[routers|e] st1]; simpl; [|exact Hst].
  apply (fold_left_invariant (fun s => db s !! "" = None) (fun _ => True)).
  - intros s h _ Hs. unfold retire_step. cbv zeta.
    destruct (_ =? 0); simpl; [|exact Hs].
    destruct (decide (h = "")) as [->|Hne];
      [apply lookup_delete_eq | by rewrite lookup_delete_ne].
  - apply Forall_forall. auto.
  - apply (fold_left_invariant (fun s => db s !! "" = None)
             (fun h => hostname h <> "" /\ Str.no_LF (hostname h) = true)).
    + intros s h [Hne _] Hs. unfold publish_step. cbv zeta.
      destruct (_ =? 0); simpl; [|exact Hs].
      by rewrite lookup_insert_ne.
    + apply extract_hostnames_wf.
    + exact Hst.
Qed.

End StepFacts.

(** ** The tick and the loop *)

Section Tick.

Variable cfg : Config.
Variable nsupdate : list event -> string -> Completed.
Variable requests_get : list event -> HttpOutcome.

(** C5, as amended. For every hostname and mode, the mutator raises if
    and only if the exit status of the transport is non-zero; what the
    transport wrote to its error output does not enter the decision. *)
Theorem update_dns_entry_raises_iff (h : string) (delete : bool) (st : state) :
  (exists e, outcome (update_dns_entry cfg nsupdate h delete) st = Raise e) <->
  returncode (nsupdate (trace st) (nsupdate_input cfg h delete)) <> 0.
Proof.
  unfold outcome. rewrite update_dns_entry_eq. cbv zeta. simpl.
  destruct (returncode _ =? 0) eqn:Hrc.
  - apply Z.eqb_eq in Hrc. split; [intros [e He]; discriminate He | congruence].
  - apply Z.eqb_neq in Hrc. split; [auto | eauto].
Qed.

(** C6. In the publishing loop, when the DNS mutation of a hostname [x]
    fails, the store is left as it was before [x], the loop goes on
    with the hostnames after [x] and ends normally, and each later
    hostname [y] has its DNS add attempted and, when that succeeds, is
    upserted into the store. *)
Theorem publish_isolates_failure (pre post : list Hostname) (x : Hostname) (st : state) :
  let s1 := exec (publish cfg nsupdate pre) st in
  exit_status cfg nsupdate (hostname x) false s1 <> 0 ->
  let s2 := exec (publish cfg nsupdate (pre ++ [x])) st in
  db s2 = db s1 /\
  trace s2 = trace s1
    ++ [Nsupdate (nsupdate_input cfg (hostname x) false)
          (exit_status cfg nsupdate (hostname x) false s1)] /\
  publish cfg nsupdate (pre ++ x :: post) st = publish cfg nsupdate post s2 /\
  outcome (publish cfg nsupdate (pre ++ x :: post)) st = Return tt /\
  forall post1 y post2, post = post1 ++ y :: post2 ->
    let sy := exec (publish cfg nsupdate (pre ++ x :: post1)) st in
    let rc := exit_status cfg nsupdate (hostname y) false sy in
    let input := nsupdate_input cfg (hostname y) false in
    exec (publish cfg nsupdate (pre ++ x :: post1 ++ [y])) st =
      if rc =? 0
      then {| db := <[hostname y := name (router y)]> (db sy);
              trace := trace sy ++ [Nsupdate input rc; Upsert (hostname y) (name (router y))] |}
      else {| db := db sy; trace := trace sy ++ [Nsupdate input rc] |}.
Proof.
  intros s1 Hfail s2. subst s1 s2. unfold exec, outcome in *.
  rewrite !publish_eq. rewrite publish_eq in Hfail. simpl in *.
  rewrite !fold_left_app. simpl.
  set (s1 := fold_left (publish_step cfg nsupdate) pre st) in *.
  assert (Hx : publish_step cfg nsupdate s1 x =
               {| db := db s1;
                  trace := trace s1
                    ++ [Nsupdate (nsupdate_input cfg (hostname x) false)
                          (exit_status cfg nsupdate (hostname x) false s1)] |}).
  { unfold publish_step. cbv zeta.
    apply Z.eqb_neq in Hfail. by rewrite Hfail. }
  rewrite Hx. simpl.
  split; [reflexivity|]. split; [reflexivity|].
  split; [reflexivity|]. split; [reflexivity|].
  intros post1 y post2 ->.
  rewrite !publish_eq. simpl.
  rewrite !fold_left_app. simpl. rewrite !fold_left_app. simpl.
  reflexivity.
Qed.


(** C8. The events of a tick extend the trace so that every upsert
    comes immediately after a run of nsupdate on the add transcript of
    that hostname that exited with 0, every delete immediately after
    such a run on its delete transcript, the store after the tick is
    the store before it with exactly these writes applied, and the
    event after a failed run of nsupdate is never a store write. *)
Theorem store_writes_follow_successful_mutations (st : state) :
  exists new,
    trace (exec (update_loop cfg nsupdate requests_get) st) = trace st ++ new /\
    writes_justified cfg None new /\
    db (exec (update_loop cfg nsupdate requests_get) st) = replay new (db st) /\
    forall pre input rc ev post,
      new = pre ++ Nsupdate input rc :: ev :: post -> rc <> 0 -> is_write ev = false.
Proof.
  destruct (update_loop_extends cfg nsupdate requests_get st) as (new & T & J & D).
  exists new. repeat split; try assumption.
  eapply writes_justified_after_failure; eassumption.
Qed.


(** [sleep] either records the sleep or raises with the state as it is. *)
Lemma sleep_cases (secs : Z) (st : state) :
  sleep secs st = (Return tt, {| db := db st; trace := trace st ++ [Sleep secs] |}) \/
  exists e, sleep secs st = (Raise e, st).
Proof.
  unfold sleep, raise, emit.
  destruct ((secs <? - SLEEP_MAX) || (SLEEP_MAX <? secs)); [eauto|].
  destruct (secs <? 0); eauto.
Qed.

(** A turn of the loop is the tick, whose exception is caught, and then
    the sleep, whose exception is not. *)
Lemma iteration_eq (st : state) :
  iteration cfg nsupdate requests_get st =
    sleep (UPDATE_INTERVAL cfg) (exec (update_loop cfg nsupdate requests_get) st).
Proof.
  unfold iteration, bind, try_except, log, ret.
  destruct (update_loop_total cfg nsupdate requests_get st) as [H|[e H]]; rewrite H.
  - reflexivity.
  - unfold exec. rewrite H. reflexivity.
Qed.


End Tick.

(** ** The cleanup *)

Section Cleanup.

Variable cfg : Config.
Variable nsupdate : list event -> string -> Completed.

(** What the query of the cleanup selects: the persisted hostnames
    different from the one text made of the desired hostnames joined
    by commas. *)
Lemma old_hostnames_spec (hostnames : list Hostname) (d : gmap string string) (h : string) :
  In h (old_hostnames hostnames d) <->
  is_Some (d !! h) /\ h <> Str.join "," (map hostname hostnames).
Proof.
  unfold old_hostnames, select_hostname_not_in.
  rewrite <- list_elem_of_In, merge_sort_Permutation, list_elem_of_In.
  rewrite filter_In, in_map_iff. split.
  - intros [([k v] & <- & Hin) Hne]. simpl in *.
    apply list_elem_of_In, elem_of_map_to_list in Hin.
    split; [eauto|].
    intros ->. by rewrite String.eqb_refl in Hne.
  - intros [[v Hv] Hne]. split.
    + exists (h, v). split; [reflexivity|].
      by apply list_elem_of_In, elem_of_map_to_list.
    + apply negb_true_iff, String.eqb_neq, Hne.
Qed.

Lemma fold_delete_lookup (l : list string) (d : gmap string string) (k : string) :
  fold_left (fun d h => delete h d) l d !! k = if decide (k ∈ l) then None else d !! k.
Proof.
  revert d. induction l as [|h l IH]; intros d; simpl.
  - reflexivity.
  - rewrite IH. destruct (decide (k ∈ l)) as [Hin|Hnin].
    + by rewrite decide_True by (by right).
    + destruct (decide (h = k)) as [->|Hne].
      * rewrite decide_True by left. apply lookup_delete_eq.
      * rewrite decide_False by (intros [?|?]%elem_of_cons; congruence).
        by apply lookup_delete_ne.
Qed.

Lemma retire_step_trace_mono (st : state) (h : string) (ev : event) :
  In ev (trace st) -> In ev (trace (retire_step cfg nsupdate st h)).
Proof.
  intros Hin. unfold retire_step. cbv zeta.
  destruct (_ =? 0); simpl; apply in_or_app; auto.
Qed.

Lemma retire_fold_trace_mono (l : list string) (st : state) (ev : event) :
  In ev (trace st) -> In ev (trace (fold_left (retire_step cfg nsupdate) l st)).
Proof.
  revert st. induction l as [|h l IH]; intros st Hin; simpl; [exact Hin|].
  by apply IH, retire_step_trace_mono.
Qed.

(** When every delete succeeds, the retiring loop runs nsupdate on the
    delete transcript of each hostname and removes each from the store. *)
Lemma retire_fold_ok (l : list string) (st : state) :
  (forall tr h, returncode (nsupdate tr (nsupdate_input cfg h true)) = 0) ->
  db (fold_left (retire_step cfg nsupdate) l st)
    = fold_left (fun d h => delete h d) l (db st) /\
  forall h, In h l ->
    In (Nsupdate (nsupdate_input cfg h true) 0)
       (trace (fold_left (retire_step cfg nsupdate) l st)).
Proof.
  intros Hok. revert st. induction l as [|h l IH]; intros st; simpl.
  - split; [reflexivity | intros ? []].
  - assert (Hstep : retire_step cfg nsupdate st h =
                    {| db := delete h (db st);
                       trace := trace st ++ [Nsupdate (nsupdate_input cfg h true) 0; Delete h] |}).
    { unfold retire_step, exit_status. cbv zeta. rewrite Hok. reflexivity. }
    destruct (IH (retire_step cfg nsupdate st h)) as [Hdb Htr].
    split.
    + rewrite Hdb, Hstep. reflexivity.
    + intros h' [<-|Hin]; [|by apply Htr].
      apply retire_fold_trace_mono. rewrite Hstep. simpl.
      apply in_or_app. right. simpl. auto.
Qed.

Lemma runs_app (a b : list event) : runs (a ++ b) = runs a ++ runs b.
Proof.
  induction a as [|ev a IH]; simpl; [reflexivity|].
  destruct ev; simpl; by rewrite IH.
Qed.

Lemma publish_fold_runs (hs : list Hostname) (st : state) :
  runs (trace (fold_left (publish_step cfg nsupdate) hs st)) =
    runs (trace st) ++ map (fun h => nsupdate_input cfg (hostname h) false) hs.
Proof.
  revert st. induction hs as [|h hs IH]; intros st; simpl.
  - by rewrite app_nil_r.
  - rewrite IH. unfold publish_step. cbv zeta.
    destruct (_ =? 0); simpl; rewrite runs_app; simpl; by rewrite <- app_assoc.
Qed.

Lemma retire_fold_runs (ks : list string) (st : state) :
  runs (trace (fold_left (retire_step cfg nsupdate) ks st)) =
    runs (trace st) ++ map (fun k => nsupdate_input cfg k true) ks.
Proof.
  revert st. induction ks as [|k ks IH]; intros st; simpl.
  - by rewrite app_nil_r.
  - rewrite IH. unfold retire_step. cbv zeta.
    destruct (_ =? 0); simpl; rewrite runs_app; simpl; by rewrite <- app_assoc.
Qed.

(** When every delete succeeds, the retiring loop leaves no entry but,
    at most, one under the joined text itself. *)
Lemma retire_leaves_only_joined_text (hostnames : list Hostname) (st : state) (k : string) :
  (forall tr h, returncode (nsupdate tr (nsupdate_input cfg h true)) = 0) ->
  k <> Str.join "," (map hostname hostnames) ->
  db (fold_left (retire_step cfg nsupdate) (old_hostnames hostnames (db st)) st) !! k = None.
Proof.
  intros Hok Hk.
  destruct (retire_fold_ok (old_hostnames hostnames (db st)) st Hok) as [-> _].
  rewrite fold_delete_lookup.
  destruct (decide (k ∈ old_hostnames hostnames (db st))) as [Hin|Hnin]; [reflexivity|].
  destruct (db st !! k) as [v|] eqn:Hv; [|reflexivity].
  exfalso. apply Hnin, list_elem_of_In, old_hostnames_spec. eauto.
Qed.

(** So with two desired records or more, every desired hostname is
    retired by the cleanup of its own tick. *)
Lemma cleanup_retires_desired (hostnames : list Hostname) (st : state) (h : Hostname) :
  (forall tr h, returncode (nsupdate tr (nsupdate_input cfg h true)) = 0) ->
  (2 <= List.length hostnames)%nat ->
  In h hostnames ->
  db (exec (cleanup_old_dns_entries cfg nsupdate hostnames) st) !! hostname h = None.
Proof.
  intros Hok Hlen Hin. unfold exec. rewrite cleanup_eq. simpl.
  apply retire_leaves_only_joined_text; [exact Hok|].
  apply StrFacts.join_ne_member.
  - discriminate.
  - by apply in_map.
  - by rewrite length_map.
Qed.

(** C10. For every store state (holding no entry under the empty
    hostname, as every store this program wrote), when the desired
    hostname list is empty the cleanup selects exactly the persisted
    hostnames as old, ends normally, and runs nsupdate on the delete
    transcript of each of them, once each, whatever these runs return;
    and when every delete succeeds it leaves the store empty. *)
Theorem cleanup_without_desired_hostnames (st : state) :
  db st !! "" = None ->
  (forall h, In h (old_hostnames [] (db st)) <-> is_Some (db st !! h)) /\
  outcome (cleanup_old_dns_entries cfg nsupdate []) st = Return tt /\
  runs (trace (exec (cleanup_old_dns_entries cfg nsupdate []) st))
    = runs (trace st)
        ++ map (fun h => nsupdate_input cfg h true) (old_hostnames [] (db st)) /\
  (forall h, is_Some (db st !! h) ->
     In (nsupdate_input cfg h true)
        (runs (trace (exec (cleanup_old_dns_entries cfg nsupdate []) st)))) /\
  ((forall tr h, returncode (nsupdate tr (nsupdate_input cfg h true)) = 0) ->
   db (exec (cleanup_old_dns_entries cfg nsupdate []) st) = ∅).
Proof.
  intros Hempty.
  assert (Hsel : forall h, In h (old_hostnames [] (db st)) <-> is_Some (db st !! h)).
  { intros h. rewrite old_hostnames_spec. simpl. split; [tauto|].
    intros Hsome. split; [exact Hsome|].
    intros ->. rewrite Hempty in Hsome. by destruct Hsome. }
  unfold exec, outcome. rewrite cleanup_eq. simpl.
  split; [exact Hsel|]. split; [reflexivity|].
  split; [apply retire_fold_runs|]. split.
  - intros h Hsome. rewrite retire_fold_runs. apply in_or_app. right.
    apply (in_map (fun h => nsupdate_input cfg h true)), Hsel, Hsome.
  - intros Hok.
    destruct (retire_fold_ok (old_hostnames [] (db st)) st Hok) as [Hdb _].
    rewrite Hdb. apply map_eq. intros k.
    rewrite fold_delete_lookup, lookup_empty.
    destruct (decide (k ∈ old_hostnames [] (db st))) as [Hin|Hnin]; [reflexivity|].
    destruct (db st !! k) as [v|] eqn:Hk; [|reflexivity].
    exfalso. apply Hnin, list_elem_of_In, Hsel. eauto.
Qed.

End Cleanup.

(** ** The code at concrete inputs *)

Import Scenario.

(** C5, the claim as stated fails at two inputs: after an exit status of
    2 with a diagnostic on the error output the exception carries
    [None], not the diagnostic; and error output with an exit status of
    0 raises nothing. *)
Lemma update_dns_entry_error_counterexample :
  ~ raises_with_diagnostic default_config refused "a.example.com" false empty_state /\
  ~ raises_iff_reported default_config complains "a.example.com" false empty_state.
Proof.
  split.
  - intros H. unfold raises_with_diagnostic in H. cbv zeta in H.
    assert (Hrc : returncode (refused (trace empty_state)
                    (nsupdate_input default_config "a.example.com" false)) <> 0)
      by (simpl; lia).
    specialize (H Hrc). vm_compute in H. discriminate H.
  - intros [_ H]. destruct H as [e He].
    + right. simpl. discriminate.
    + vm_compute in He. discriminate He.
Qed.

(** What the exception carries there. *)
Example update_dns_entry_refused :
  outcome (update_dns_entry default_config refused "a.example.com" false) empty_state
    = Raise (Exception None).
Proof. reflexivity. Qed.

(** C1, the code at persisted a, b, c and desired a, c: the cleanup
    selects all of a, b and c as old (not b alone), and with every
    delete succeeding it empties the store. *)
Theorem stale_set_of_abc_minus_ac :
  Permutation (old_hostnames desired_ac persisted_abc) ["a"; "b"; "c"] /\
  db (exec (cleanup_old_dns_entries default_config always_ok desired_ac)
        {| db := persisted_abc; trace := [] |}) = ∅.
Proof.
  split.
  - assert (E : old_hostnames desired_ac persisted_abc = ["a"; "b"; "c"])
      by (vm_compute; reflexivity).
    rewrite E. reflexivity.
  - vm_compute. reflexivity.
Qed.

(** C2, the code at an empty store and two routes for a and c, with
    every DNS mutation succeeding: the tick extracts a and c, ends
    normally, and leaves the store empty. *)
Theorem tick_with_two_hostnames_empties_store :
  map hostname
      (extract_hostnames
         (filter_routers default_config
            [route "r1" "Host(`a`)"; route "r3" "Host(`c`)"])) = ["a"; "c"] /\
  outcome (update_loop default_config always_ok routes_ac) empty_state = Return tt /\
  db (exec (update_loop default_config always_ok routes_ac) empty_state) = ∅.
Proof. repeat split; vm_compute; reflexivity. Qed.

(** The events of that tick: a and c are added and recorded, then both
    are deleted again. *)
Example tick_with_two_hostnames_events :
  let input := nsupdate_input default_config in
  trace (exec (update_loop default_config always_ok routes_ac) empty_state) =
    [Nsupdate (input "a" false) 0; Upsert "a" "r1";
     Nsupdate (input "c" false) 0; Upsert "c" "r3";
     Nsupdate (input "a" true) 0; Delete "a";
     Nsupdate (input "c" true) 0; Delete "c"].
Proof. vm_compute. reflexivity. Qed.

(** C3, the code at the rule with two Host clauses: one hostname is
    extracted, reaching from the first opening backtick to the last
    closing one; a rule without Host clause yields none. *)
Theorem extract_two_hosts_rule :
  map hostname (extract_hostnames [route "r1" two_hosts_rule])
    = ["a.example.com`) || Host(`b.example.com"] /\
  extract_hostnames [route "r2" no_host_rule] = [].
Proof. split; vm_compute; reflexivity. Qed.

(** The same greedy match on a Host clause followed by another clause
    in backticks. *)
Example extract_host_and_path_rule :
  map hostname (extract_hostnames [route "r1" host_and_path_rule])
    = ["a.example.com`) && PathPrefix(`/api"].
Proof. vm_compute. reflexivity. Qed.

(** A rule holding one Host clause and no other backtick yields its hostname. *)
Example extract_single_host :
  extract_hostnames [route "r1" "Host(`svc.local`)"]
    = [ {| hostname := "svc.local"; router := route "r1" "Host(`svc.local`)" |} ].
Proof. vm_compute. reflexivity. Qed.

(** A response that decodes to an object is no fetch failure: its keys
    are passed over, no route is left, and the tick retires every
    persisted hostname. *)
Example tick_on_object_response :
  let tick := update_loop default_config always_ok (fun _ => ParsedIterable [NotMapping]) in
  outcome tick {| db := persisted_xy; trace := [] |} = Return tt /\
  db (exec tick {| db := persisted_xy; trace := [] |}) = ∅.
Proof. split; vm_compute; reflexivity. Qed.

(** An entry under the empty hostname is the one the cleanup passes
    over when nothing is desired. *)
Example cleanup_passes_over_empty_hostname :
  old_hostnames [] (<["" := "r0"]> persisted_xy) = old_hostnames [] persisted_xy.
Proof. vm_compute. reflexivity. Qed.

(** ** Instances *)

Lemma update_dns_entry_transcript_witness :
  one_line_each default_config "svc.local" /\
  exists rc,
    trace (exec (update_dns_entry default_config always_ok "svc.local" false) empty_state)
      = [Nsupdate (nsupdate_input default_config "svc.local" false) rc] /\
    In (add_line default_config "svc.local")
       (Str.lines (nsupdate_input default_config "svc.local" false)).
Proof.
  assert (H : one_line_each default_config "svc.local") by (repeat split).
  split; [exact H|].
  destruct (update_dns_entry_transcript default_config always_ok "svc.local" false
              empty_state H) as (rc & Htr & _ & _ & Hadd & _).
  exists rc. split; [exact Htr|]. apply Hadd. reflexivity.
Defined.

Lemma publish_isolates_failure_witness :
  exit_status default_config first_fails (hostname hx) false
    (exec (publish default_config first_fails []) empty_state) <> 0 /\
  db (exec (publish default_config first_fails ([] ++ [hx])) empty_state) = ∅ /\
  outcome (publish default_config first_fails ([] ++ hx :: [hy; hz])) empty_state = Return tt.
Proof.
  assert (H : exit_status default_config first_fails (hostname hx) false
                (exec (publish default_config first_fails []) empty_state) <> 0)
    by (vm_compute; discriminate).
  split; [exact H|].
  destruct (publish_isolates_failure default_config first_fails [] [hy; hz] hx
              empty_state H) as (Hdb & _ & _ & Hout & _).
  split; [exact Hdb | exact Hout].
Defined.




Lemma cleanup_without_desired_hostnames_witness :
  persisted_xy !! "" = None /\
  (forall tr h, returncode (always_ok tr (nsupdate_input default_config h true)) = 0) /\
  runs (trace (exec (cleanup_old_dns_entries default_config first_fails [])
                 {| db := persisted_xy; trace := [] |}))
    = [nsupdate_input default_config "x.fritz.box" true;
       nsupdate_input default_config "y.fritz.box" true] /\
  db (exec (cleanup_old_dns_entries default_config always_ok [])
        {| db := persisted_xy; trace := [] |}) = ∅.
Proof.
  assert (H1 : db {| db := persisted_xy; trace := [] |} !! "" = None) by reflexivity.
  assert (H2 : forall tr h,
             returncode (always_ok tr (nsupdate_input default_config h true)) = 0)
    by reflexivity.
  split; [exact H1|]. split; [exact H2|]. split.
  - destruct (cleanup_without_desired_hostnames default_config first_fails
                {| db := persisted_xy; trace := [] |} H1) as (_ & _ & Hruns & _).
    rewrite Hruns. vm_compute. reflexivity.
  - exact (proj2 (proj2 (proj2 (proj2
      (cleanup_without_desired_hostnames default_config always_ok
         {| db := persisted_xy; trace := [] |} H1)))) H2).
Defined.

(** * Further properties of the code *)

(** ** The filter *)

Lemma str_in_In (x : string) (l : list string) : str_in x l = true <-> In x l.
Proof.
  unfold str_in. rewrite existsb_exists. split.
  - intros (y & Hy & Heq). apply String.eqb_eq in Heq. by subst.
  - intros Hin. exists x. split; [exact Hin | apply String.eqb_refl].
Qed.

Lemma keeps_iff (cfg : Config) (r : Router) :
  existsb (fun entryPoint => str_in entryPoint (entryPoints r)) (TRAEFIK_ENTRYPOINTS cfg)
    = true <->
  exists ep, In ep (TRAEFIK_ENTRYPOINTS cfg) /\ In ep (entryPoints r).
Proof.
  rewrite existsb_exists. split; intros (ep & H1 & H2); exists ep;
    (split; [exact H1 | by apply str_in_In]).
Qed.

(** X1. A router is in the filtered list exactly when it is in the
    given list and one of the configured entry points is among its
    entry points. *)
Theorem filter_routers_keeps (cfg : Config) (routers : list Router) (r : Router) :
  In r (filter_routers cfg routers) <->
  In r routers /\ exists ep, In ep (TRAEFIK_ENTRYPOINTS cfg) /\ In ep (entryPoints r).
Proof.
  unfold filter_routers. rewrite filter_In, keeps_iff. reflexivity.
Qed.

(** X2. The filter keeps the routers it keeps in their order and number
    (its result is a subsequence of the given list, and it distributes
    over concatenation), and filtering a second time changes nothing. *)
Theorem filter_routers_stable (cfg : Config) (routers more : list Router) :
  sublist (filter_routers cfg routers) routers /\
  filter_routers cfg (routers ++ more) = filter_routers cfg routers ++ filter_routers cfg more /\
  filter_routers cfg (filter_routers cfg routers) = filter_routers cfg routers.
Proof.
  unfold filter_routers. split; [|split].
  - induction routers as [|r routers IH]; simpl; [constructor|].
    destruct (existsb _ _); by constructor.
  - apply List.filter_app.
  - induction routers as [|r routers IH]; simpl; [reflexivity|].
    destruct (existsb _ (TRAEFIK_ENTRYPOINTS cfg)) eqn:Hr; simpl.
    + rewrite Hr. by rewrite IH.
    + exact IH.
Qed.

(** ** The extraction *)

Module ReMore.
Import Re.

(** A group [finditer] returns is the group of a match at some position. *)
Lemma finditer_from_sound (p : pattern) (g : string) :
  forall s skip, In g (finditer_from p skip s) ->
  exists pre tail rest, s = pre +:+ tail /\ match_here p tail = Some (g, rest).
Proof.
  induction s as [|c s IH]; intros skip Hin; simpl in Hin; [destruct Hin|].
  assert (Hshift : forall k, In g (finditer_from p k s) ->
            exists pre tail rest,
              String c s = pre +:+ tail /\ match_here p tail = Some (g, rest)).
  { intros k Hk. destruct (IH k Hk) as (pre & tail & rest & -> & Hm).
    exists (String c pre), tail, rest. split; [reflexivity | exact Hm]. }
  destruct skip as [|k]; [|by eapply Hshift].
  destruct (match_here p (String c s)) as [[g0 rest0]|] eqn:Hm.
  - destruct Hin as [<-|Hin]; [|by eapply Hshift].
    exists "", (String c s), rest0. split; [reflexivity | exact Hm].
  - by eapply Hshift.
Qed.

(** Passing over a whole prefix resumes the scan behind it. *)
Lemma finditer_from_skip (p : pattern) (a tail : string) :
  finditer_from p (String.length a) (a +:+ tail) = finditer_from p 0 tail.
Proof.
  induction a as [|c a IH]; [reflexivity|].
  rewrite StrFacts.app_cons. simpl. exact IH.
Qed.

(** Where [(.+)] finds no match, no non-empty text on the line is
    followed by a match of the rest of the pattern. *)
Lemma dot_plus_none (p : pattern) (s : string) :
  match_here (GroupDotPlus :: p) s = None ->
  forall g tail, g <> "" -> Str.no_LF g = true -> s = g +:+ tail ->
  match_here p tail = None.
Proof.
  induction s as [|c s IH]; intros H g tail Hg Hnl Hs.
  - destruct g; [congruence | discriminate Hs].
  - destruct g as [|c' g]; [congruence|].
    rewrite StrFacts.app_cons in Hs. injection Hs as <- ->.
    simpl in Hnl. apply andb_prop in Hnl as [Hc Hnl].
    apply negb_true_iff in Hc.
    simpl in H. rewrite Hc in H.
    change ((fix dot_plus (s0 : string) : option (string * string) := _) (g +:+ tail))
      with (match_here (GroupDotPlus :: p) (g +:+ tail)) in H.
    destruct (match_here (GroupDotPlus :: p) (g +:+ tail)) as [[g1 r1]|] eqn:Hrec;
      [discriminate H|].
    destruct g as [|c2 g].
    + change ("" +:+ tail) with tail in *.
      destruct (match_here p tail) as [[? ?]|]; [discriminate H | reflexivity].
    + eapply (IH eq_refl (String c2 g)); [discriminate | exact Hnl | reflexivity].
Qed.

(** The group of [(.+)] is the longest it can be. *)
Lemma dot_plus_greedy (p : pattern) (s g rest : string) :
  match_here (GroupDotPlus :: p) s = Some (g, rest) ->
  forall g' tail', s = g' +:+ tail' -> Str.no_LF g' = true ->
  (String.length g < String.length g')%nat ->
  match_here p tail' = None.
Proof.
  revert g rest. induction s as [|c s IH]; intros g rest H g' tail' Hs Hnl Hlen.
  - discriminate H.
  - simpl in H. destruct (Ascii.eqb c Str.LF) eqn:Hc; [discriminate H|].
    change ((fix dot_plus (s0 : string) : option (string * string) := _) s)
      with (match_here (GroupDotPlus :: p) s) in H.
    destruct g' as [|c' g']; [simpl in Hlen; lia|].
    rewrite StrFacts.app_cons in Hs. injection Hs as <- ->.
    simpl in Hnl. apply andb_prop in Hnl as [_ Hnl].
    destruct (match_here (GroupDotPlus :: p) (g' +:+ tail')) as [[g1 rest1]|] eqn:Hrec.
    + injection H as <- <-. simpl in Hlen.
      eapply (IH _ _ eq_refl g'); [reflexivity | exact Hnl | lia].
    + destruct (match_here p (g' +:+ tail')) as [[g1 rest1]|] eqn:Hp; [|discriminate H].
      injection H as <- <-. simpl in Hlen.
      eapply (dot_plus_none p _ Hrec g'); [|exact Hnl | reflexivity].
      destruct g'; [simpl in Hlen; lia | discriminate].
Qed.

(** [(.+)] before a closing [`)] that ends the text or the line takes
    the whole text before it. *)
Lemma dot_plus_line (g tail : string) :
  g <> "" -> Str.no_LF g = true ->
  tail = "" \/ (exists tail', tail = String Str.LF tail') ->
  match_here [GroupDotPlus; Lit "`"; Lit ")"]%char (g +:+ "`)" +:+ tail) = Some (g, tail).
Proof.
  intros Hg Hnl Htail.
  induction g as [|c g IH]; [congruence|].
  simpl in Hnl. apply andb_prop in Hnl as [Hc Hnl]. apply negb_true_iff in Hc.
  rewrite StrFacts.app_cons. simpl. rewrite Hc.
  change ((fix dot_plus (s0 : string) : option (string * string) := _) (g +:+ "`)" +:+ tail))
    with (match_here [GroupDotPlus; Lit "`"; Lit ")"]%char (g +:+ "`)" +:+ tail)).
  destruct g as [|c2 g].
  - destruct Htail as [->|[tail' ->]]; reflexivity.
  - rewrite IH; [reflexivity | discriminate | exact Hnl].
Qed.

End ReMore.

Lemma lit_match (c : ascii) (p : Re.pattern) (s : string) :
  Re.match_here (Re.Lit c :: p) (String c s) = Re.match_here p s.
Proof. simpl. by rewrite Ascii.eqb_refl. Qed.

(** What [re.finditer(hostname_regex, s)] returns lies in [s] between
    [Host(`] and [`)]. *)
Lemma extracted_from_rule (s g : string) :
  In g (Re.finditer hostname_regex s) ->
  g <> "" /\ Str.no_LF g = true /\
  exists pre post, s = pre +:+ "Host(`" +:+ g +:+ "`)" +:+ post.
Proof.
  intros Hin. apply ReMore.finditer_from_sound in Hin as (pre & tail & rest & -> & Hm).
  apply hostname_regex_match in Hm as (-> & Hne & Hnl).
  split; [exact Hne|]. split; [exact Hnl|]. by exists pre, rest.
Qed.

Lemma in_extract_hostnames (routers : list Router) (h : Hostname) :
  In h (extract_hostnames routers) <->
  In (router h) routers /\ In (hostname h) (Re.finditer hostname_regex (rule (router h))).
Proof.
  unfold extract_hostnames. rewrite in_flat_map. split.
  - intros (r & Hr & Hin). apply in_map_iff in Hin as (g & <- & Hg). simpl. auto.
  - intros [Hr Hg]. exists (router h). split; [exact Hr|].
    apply in_map_iff. exists (hostname h). split; [by destruct h | exact Hg].
Qed.

(** X3. Every extracted record belongs to a router of the given list,
    and its hostname is a non-empty text without line feed that stands
    in the rule of that router between [Host(`] and [`)]. *)
Theorem extract_hostnames_sound (routers : list Router) (h : Hostname) :
  In h (extract_hostnames routers) ->
  In (router h) routers /\
  hostname h <> "" /\ Str.no_LF (hostname h) = true /\
  exists pre post, rule (router h) = pre +:+ "Host(`" +:+ hostname h +:+ "`)" +:+ post.
Proof.
  intros Hin. apply in_extract_hostnames in Hin as [Hr Hg].
  split; [exact Hr|]. by apply extracted_from_rule.
Qed.

Lemma match_longest (s g rest g' rest' : string) :
  Re.match_here hostname_regex s = Some (g, rest) ->
  s = "Host(`" +:+ g' +:+ "`)" +:+ rest' ->
  Str.no_LF g' = true ->
  (String.length g' <= String.length g)%nat.
Proof.
  unfold hostname_regex. intros H Hs Hnl.
  do 6 (apply ReFacts.lit_inv in H as (? & -> & H)).
  injection Hs as Hs.
  destruct (le_lt_dec (String.length g') (String.length g)) as [Hle|Hlt]; [exact Hle|].
  exfalso.
  pose proof (ReMore.dot_plus_greedy _ _ _ _ H g' ("`)" +:+ rest') Hs Hnl Hlt) as Hnone.
  rewrite !StrFacts.app_cons, !lit_match in Hnone. discriminate Hnone.
Qed.

(** X4. The group of a match of [hostname_regex] is the longest
    candidate: no longer text without line feed starts at the same
    [Host(`] and is followed by [`)]. *)
Theorem hostname_regex_longest (s g rest g' rest' : string) :
  Re.match_here hostname_regex s = Some (g, rest) ->
  s = "Host(`" +:+ g' +:+ "`)" +:+ rest' ->
  Str.no_LF g' = true ->
  (String.length g' <= String.length g)%nat.
Proof. apply match_longest. Qed.

(** X5. Routers whose rules hold no [Host(`] yield no record at all. *)
Theorem extract_hostnames_none (routers : list Router) :
  (forall r, In r routers -> forall pre post, rule r <> pre +:+ "Host(`" +:+ post) ->
  extract_hostnames routers = [].
Proof.
  intros Hno. destruct (extract_hostnames routers) as [|h hs] eqn:E; [reflexivity|].
  assert (Hin : In h (extract_hostnames routers)) by (rewrite E; left; reflexivity).
  apply in_extract_hostnames in Hin as [Hr Hg].
  apply extracted_from_rule in Hg as (_ & _ & pre & post & Hrule).
  exfalso. exact (Hno _ Hr pre _ Hrule).
Qed.

Lemma match_clause_line (g tail : string) :
  g <> "" -> Str.no_LF g = true ->
  tail = "" \/ (exists tail', tail = String Str.LF tail') ->
  Re.match_here hostname_regex ("Host(`" +:+ g +:+ "`)" +:+ tail) = Some (g, tail).
Proof.
  intros Hg Hnl Htail. unfold hostname_regex.
  rewrite !StrFacts.app_cons, !lit_match.
  change ("" +:+ g +:+ "`)" +:+ tail) with (g +:+ "`)" +:+ tail).
  by apply ReMore.dot_plus_line.
Qed.

Lemma finditer_from_match (p : Re.pattern) (c : ascii) (s g rest : string) :
  Re.match_here p (String c s) = Some (g, rest) ->
  Re.finditer_from p 0 (String c s) =
    g :: Re.finditer_from p (String.length (String c s) - String.length rest - 1) s.
Proof. intros H. cbn [Re.finditer_from]. by rewrite H. Qed.

(** X6. A rule that begins with a Host clause closed at the end of the
    rule or of the line yields the hostname of that clause, whole,
    followed by what the rest of the rule yields. *)
Theorem extract_clause_per_line (r : Router) (g tail : string) :
  rule r = "Host(`" +:+ g +:+ "`)" +:+ tail ->
  g <> "" -> Str.no_LF g = true ->
  tail = "" \/ (exists tail', tail = String Str.LF tail') ->
  extract_hostnames [r] =
    {| hostname := g; router := r |}
      :: map (fun g' => {| hostname := g'; router := r |}) (Re.finditer hostname_regex tail).
Proof.
  intros Hrule Hg Hnl Htail.
  unfold extract_hostnames. simpl. rewrite app_nil_r, Hrule.
  unfold Re.finditer.
  pose proof (match_clause_line g tail Hg Hnl Htail) as Hm.
  rewrite StrFacts.app_cons in Hm |- *.
  rewrite (finditer_from_match _ _ _ _ _ Hm).
  assert (Hrest :
    Re.finditer_from hostname_regex
      (String.length (String "H" ("ost(`" +:+ g +:+ "`)" +:+ tail)) - String.length tail - 1)
      ("ost(`" +:+ g +:+ "`)" +:+ tail)
    = Re.finditer_from hostname_regex 0 tail).
  { replace ("ost(`" +:+ g +:+ "`)" +:+ tail) with (("ost(`" +:+ g +:+ "`)") +:+ tail)
      by (rewrite !StrFacts.app_assoc; reflexivity).
    rewrite <- (ReMore.finditer_from_skip hostname_regex ("ost(`" +:+ g +:+ "`)") tail).
    f_equal. cbn [String.length]. rewrite StrFacts.length_app. lia. }
  rewrite Hrest. reflexivity.
Qed.

(** X7. Only routers bound to a configured entry point contribute: every
    record extracted from the filtered routers belongs to a router of
    the fetched list that has one of the configured entry points. *)
Theorem extracted_routers_allowed (cfg : Config) (routers : list Router) (h : Hostname) :
  In h (extract_hostnames (filter_routers cfg routers)) ->
  In (router h) routers /\
  exists ep, In ep (TRAEFIK_ENTRYPOINTS cfg) /\ In ep (entryPoints (router h)).
Proof.
  intros Hin. apply in_extract_hostnames in Hin as [Hr _].
  unfold filter_routers in Hr. apply filter_In in Hr as [Hr Hkeep].
  split; [exact Hr | by apply keeps_iff].
Qed.

(** ** The fetch, the publishing loop and the cleanup *)

Section MoreTick.

Variable cfg : Config.
Variable nsupdate : list event -> string -> Completed.

(** X8. An entry of the response that is no object neither fails the
    fetch nor changes the tick: the fetch returns normally, and fetch
    and tick are what they are on the response without that entry. *)
Theorem tick_ignores_bad_entry (requests_get requests_get' : list event -> HttpOutcome)
    (st : state) (before after : list Entry) :
  requests_get (trace st) = ParsedIterable (before ++ NotMapping :: after) ->
  requests_get' (trace st) = ParsedIterable (before ++ after) ->
  (exists routers, fetch_routers requests_get st = (Return routers, st)) /\
  fetch_routers requests_get st = fetch_routers requests_get' st /\
  update_loop cfg nsupdate requests_get st = update_loop cfg nsupdate requests_get' st.
Proof.
  intros H H'.
  assert (E : fetch_routers requests_get st = fetch_routers requests_get' st).
  { unfold fetch_routers. rewrite H, H'. by rewrite !flat_map_app. }
  split; [|split; [exact E|]].
  - unfold fetch_routers. rewrite H. eauto.
  - rewrite !update_loop_eq. by rewrite E.
Qed.

(** X9. A tick whose fetch succeeds runs nsupdate exactly once on the add
    transcript of each extracted record, in order and with repetitions,
    and then once on the delete transcript of each hostname the cleanup
    selects from the store left by the publishing, by ascending
    hostname: nothing is retried and nothing is passed over. *)
Theorem tick_runs (requests_get : list event -> HttpOutcome) (st : state)
    (routers : list Router) :
  fetch_routers requests_get st = (Return routers, st) ->
  let hostnames := extract_hostnames (filter_routers cfg routers) in
  let st1 := exec (publish cfg nsupdate hostnames) st in
  runs (trace (exec (update_loop cfg nsupdate requests_get) st)) =
    runs (trace st)
      ++ map (fun h => nsupdate_input cfg (hostname h) false) hostnames
      ++ map (fun k => nsupdate_input cfg k true) (old_hostnames hostnames (db st1)) /\
  Sorted String.le (old_hostnames hostnames (db st1)).
Proof.
  intros Hfetch hostnames st1. split.
  - subst st1. unfold exec.
    rewrite update_loop_eq, Hfetch, publish_eq. simpl.
    rewrite retire_fold_runs, publish_fold_runs. by rewrite <- app_assoc.
  - unfold old_hostnames, select_hostname_not_in. apply Sorted_merge_sort. apply _.
Qed.

Lemma upsert_all_snoc (hs : list Hostname) (x : Hostname) (d : gmap string string) :
  upsert_all (hs ++ [x]) d = upsert (upsert_all hs d) x.
Proof. unfold upsert_all. by rewrite fold_left_app. Qed.

Lemma upsert_all_other (hs : list Hostname) (d : gmap string string) (k : string) :
  ~ In k (map hostname hs) -> upsert_all hs d !! k = d !! k.
Proof.
  revert d. induction hs as [|h hs IH]; intros d Hk; [reflexivity|].
  simpl in Hk. unfold upsert_all in *. simpl. rewrite IH by tauto.
  unfold upsert. apply lookup_insert_ne. tauto.
Qed.

Lemma upsert_all_last (pre post : list Hostname) (x : Hostname) (d : gmap string string) :
  ~ In (hostname x) (map hostname post) ->
  upsert_all (pre ++ x :: post) d !! hostname x = Some (name (router x)).
Proof.
  intros Hpost. unfold upsert_all. rewrite fold_left_app. simpl.
  fold (upsert_all post (upsert (fold_left upsert pre d) x)).
  rewrite upsert_all_other by exact Hpost.
  unfold upsert. apply lookup_insert_eq.
Qed.

Lemma upsert_all_keys (hs : list Hostname) (d : gmap string string) (k : string) :
  is_Some (upsert_all hs d !! k) <-> is_Some (d !! k) \/ In k (map hostname hs).
Proof.
  revert d. induction hs as [|h hs IH]; intros d.
  - simpl. tauto.
  - unfold upsert_all in *. simpl. rewrite IH. unfold upsert.
    destruct (decide (hostname h = k)) as [->|Hne].
    + rewrite lookup_insert_eq. split; [auto|]. intros _. left. eauto.
    + rewrite lookup_insert_ne by exact Hne. split; intros [?|?]; auto.
      destruct H as [?|?]; [congruence | auto].
Qed.

Lemma publish_fold_db_ok (hs : list Hostname) (st : state) :
  (forall tr k, returncode (nsupdate tr (nsupdate_input cfg k false)) = 0) ->
  db (fold_left (publish_step cfg nsupdate) hs st) = upsert_all hs (db st).
Proof.
  intros Hok. revert st. induction hs as [|h hs IH]; intros st; [reflexivity|].
  simpl. rewrite IH. unfold publish_step, exit_status. cbv zeta. by rewrite Hok.
Qed.

(** X10. When every add succeeds, the publishing loop leaves the store
    with the records upserted in order: a hostname is persisted with the
    router name of its last record (the last writer wins), and entries
    of hostnames that are not desired are as before. *)
Theorem publish_last_writer_wins (hostnames : list Hostname) (st : state) :
  (forall tr k, returncode (nsupdate tr (nsupdate_input cfg k false)) = 0) ->
  let d := db (exec (publish cfg nsupdate hostnames) st) in
  d = upsert_all hostnames (db st) /\
  (forall pre x post, hostnames = pre ++ x :: post ->
     ~ In (hostname x) (map hostname post) ->
     d !! hostname x = Some (name (router x))) /\
  (forall k, ~ In k (map hostname hostnames) -> d !! k = db st !! k).
Proof.
  intros Hok d. subst d. unfold exec. rewrite publish_eq. simpl.
  rewrite (publish_fold_db_ok _ _ Hok).
  split; [reflexivity|]. split.
  - intros pre x post -> Hpost. by apply upsert_all_last.
  - intros k Hk. by apply upsert_all_other.
Qed.

Lemma publish_fold_keys (hs : list Hostname) (st : state) (k : string) :
  (is_Some (db st !! k) -> is_Some (db (fold_left (publish_step cfg nsupdate) hs st) !! k)) /\
  (is_Some (db (fold_left (publish_step cfg nsupdate) hs st) !! k) ->
   is_Some (db st !! k) \/ In k (map hostname hs)).
Proof.
  revert st. induction hs as [|h hs IH]; intros st; simpl; [tauto|].
  destruct (IH (publish_step cfg nsupdate st h)) as [IH1 IH2].
  assert (Hstep : (is_Some (db st !! k) ->
                   is_Some (db (publish_step cfg nsupdate st h) !! k)) /\
                  (is_Some (db (publish_step cfg nsupdate st h) !! k) ->
                   is_Some (db st !! k) \/ hostname h = k)).
  { unfold publish_step. cbv zeta. destruct (_ =? 0); simpl; [|tauto].
    destruct (decide (hostname h = k)) as [->|Hne].
    - rewrite lookup_insert_eq. split; [eauto | auto].
    - rewrite lookup_insert_ne by exact Hne. tauto. }
  destruct Hstep as [S1 S2]. split; [auto|].
  intros H. destruct (IH2 H) as [H'|H']; [|auto].
  destruct (S2 H'); auto.
Qed.

(** X11. Whatever the DNS mutations do, the publishing loop removes no
    entry from the store, and the only hostnames it can add are those
    of the records it was given. *)
Theorem publish_never_removes (hostnames : list Hostname) (st : state) (k : string) :
  (is_Some (db st !! k) -> is_Some (db (exec (publish cfg nsupdate hostnames) st) !! k)) /\
  (is_Some (db (exec (publish cfg nsupdate hostnames) st) !! k) ->
   is_Some (db st !! k) \/ In k (map hostname hostnames)).
Proof. unfold exec. rewrite publish_eq. simpl. apply publish_fold_keys. Qed.

Lemma retire_fold_db (ks : list string) (st : state) :
  db (fold_left (retire_step cfg nsupdate) ks st) ⊆ db st /\
  forall k, ~ In k ks -> db (fold_left (retire_step cfg nsupdate) ks st) !! k = db st !! k.
Proof.
  revert st. induction ks as [|h ks IH]; intros st; simpl; [split; [reflexivity | auto]|].
  destruct (IH (retire_step cfg nsupdate st h)) as [IH1 IH2].
  assert (Hstep : db (retire_step cfg nsupdate st h) ⊆ db st /\
                  forall k, k <> h -> db (retire_step cfg nsupdate st h) !! k = db st !! k).
  { unfold retire_step. cbv zeta. destruct (_ =? 0); simpl; [|split; [reflexivity | auto]].
    split; [apply delete_subseteq|]. intros k Hk. by apply lookup_delete_ne. }
  destruct Hstep as [S1 S2]. split.
  - etrans; [exact IH1 | exact S1].
  - intros k Hk. rewrite IH2 by tauto. apply S2. intros ->. tauto.
Qed.

(** X12. Whatever the DNS mutations do, the cleanup adds and changes no
    entry (the store after it is part of the store before it), and it
    leaves alone every entry its query did not select. *)
Theorem cleanup_only_removes (hostnames : list Hostname) (st : state) :
  db (exec (cleanup_old_dns_entries cfg nsupdate hostnames) st) ⊆ db st /\
  forall k, ~ In k (old_hostnames hostnames (db st)) ->
    db (exec (cleanup_old_dns_entries cfg nsupdate hostnames) st) !! k = db st !! k.
Proof. unfold exec. rewrite cleanup_eq. simpl. apply retire_fold_db. Qed.

Lemma fold_db_unchanged {A} (step : state -> A -> state) :
  (forall st x, db (step st x) = db st) ->
  forall l st, db (fold_left step l st) = db st.
Proof.
  intros Hstep. induction l as [|x l IH]; intros st; simpl; [reflexivity|].
  by rewrite IH, Hstep.
Qed.

(** X13. When no run of nsupdate exits with 0, a tick leaves the store
    exactly as it was, whatever the routes are. *)
Theorem tick_without_dns_keeps_store (requests_get : list event -> HttpOutcome) (st : state) :
  (forall tr input, returncode (nsupdate tr input) <> 0) ->
  db (exec (update_loop cfg nsupdate requests_get) st) = db st.
Proof.
  intros Hfail. unfold exec. rewrite update_loop_eq.
  destruct (fetch_routers requests_get st) as [[routers|e] st1]; simpl; [|reflexivity].
  rewrite !fold_db_unchanged; [reflexivity| |].
  - intros s h. unfold publish_step, exit_status. cbv zeta.
    specialize (Hfail (trace s) (nsupdate_input cfg (hostname h) false)).
    apply Z.eqb_neq in Hfail. by rewrite Hfail.
  - intros s h. unfold retire_step, exit_status. cbv zeta.
    specialize (Hfail (trace s) (nsupdate_input cfg h true)).
    apply Z.eqb_neq in Hfail. by rewrite Hfail.
Qed.

End MoreTick.

(** ** The store across a tick *)

Section MoreStore.

Variable cfg : Config.
Variable nsupdate : list event -> string -> Completed.
Variable requests_get : list event -> HttpOutcome.

Lemma map_fst_keys (d : gmap string string) : map fst (map_to_list d) = (map_to_list d).*1.
Proof. induction (map_to_list d) as [|x l IH]; simpl; [reflexivity | by rewrite IH]. Qed.

(** X14. The query of the cleanup returns each hostname at most once,
    and returns exactly the persisted hostnames that differ from the
    desired hostnames joined by commas: each selected hostname gets one
    delete run per tick. *)
Theorem old_hostnames_selection (hostnames : list Hostname) (d : gmap string string) :
  NoDup (old_hostnames hostnames d) /\
  forall h, In h (old_hostnames hostnames d) <->
            is_Some (d !! h) /\ h <> Str.join "," (map hostname hostnames).
Proof.
  split; [|intros h; apply old_hostnames_spec].
  unfold old_hostnames, select_hostname_not_in.
  rewrite merge_sort_Permutation.
  apply NoDup_ListNoDup, List.NoDup_filter, NoDup_ListNoDup.
  rewrite map_fst_keys. apply NoDup_fst_map_to_list.
Qed.

(** X15. A tick that extracts exactly one record, all of its runs of
    nsupdate succeeding, leaves the store holding that hostname with its
    router name and nothing else, whatever the store held before. *)
Theorem tick_single_record (st : state) (routers : list Router) (h : Hostname) :
  (forall tr input, returncode (nsupdate tr input) = 0) ->
  fetch_routers requests_get st = (Return routers, st) ->
  extract_hostnames (filter_routers cfg routers) = [h] ->
  db (exec (update_loop cfg nsupdate requests_get) st)
    = {[ hostname h := name (router h) ]}.
Proof.
  intros Hok Hfetch Hext. unfold exec.
  rewrite update_loop_eq, Hfetch. cbv zeta. rewrite Hext.
  change (fold_left (publish_step cfg nsupdate) [h] st) with (publish_step cfg nsupdate st h).
  set (st1 := publish_step cfg nsupdate st h).
  assert (Hdb1 : db st1 = <[hostname h := name (router h)]> (db st)).
  { subst st1. unfold publish_step, exit_status. cbv zeta. by rewrite Hok. }
  cbn [snd].
  destruct (retire_fold_ok cfg nsupdate (old_hostnames [h] (db st1)) st1
              (fun tr k => Hok tr _)) as [-> _].
  apply map_eq. intros k. rewrite fold_delete_lookup.
  destruct (decide (k ∈ old_hostnames [h] (db st1))) as [Hin|Hnin].
  - apply list_elem_of_In, old_hostnames_spec in Hin as [_ Hne]. simpl in Hne.
    symmetry. by apply lookup_singleton_ne.
  - destruct (decide (k = hostname h)) as [->|Hne].
    + by rewrite Hdb1, lookup_insert_eq, lookup_singleton_eq.
    + rewrite lookup_singleton_ne by congruence.
      destruct (db st1 !! k) as [v|] eqn:Hk; [|reflexivity].
      exfalso. apply Hnin, list_elem_of_In, old_hostnames_spec. simpl. eauto.
Qed.

(** X16. A tick that extracts two records or more, all of its delete
    runs succeeding, ends with no entry in the store except, at most,
    one under the joined text of the desired hostnames; none of the
    desired hostnames is persisted after it. *)
Theorem tick_retires_all_desired (st : state) (routers : list Router) :
  (forall tr k, returncode (nsupdate tr (nsupdate_input cfg k true)) = 0) ->
  fetch_routers requests_get st = (Return routers, st) ->
  let hostnames := extract_hostnames (filter_routers cfg routers) in
  (2 <= List.length hostnames)%nat ->
  (forall k, k <> Str.join "," (map hostname hostnames) ->
     db (exec (update_loop cfg nsupdate requests_get) st) !! k = None) /\
  (forall h, In h hostnames ->
     db (exec (update_loop cfg nsupdate requests_get) st) !! hostname h = None).
Proof.
  intros Hok Hfetch hostnames Hlen.
  assert (Hall : forall k, k <> Str.join "," (map hostname hostnames) ->
            db (exec (update_loop cfg nsupdate requests_get) st) !! k = None).
  { intros k Hk. unfold exec. rewrite update_loop_eq, Hfetch. cbv zeta. simpl snd.
    by apply retire_leaves_only_joined_text. }
  split; [exact Hall|].
  intros h Hin. apply Hall, StrFacts.join_ne_member.
  - discriminate.
  - by apply in_map.
  - by rewrite length_map.
Qed.

Lemma publish_step_wf (st : state) (h : Hostname) :
  hostname h <> "" /\ Str.no_LF (hostname h) = true ->
  hostnames_wf (db st) -> hostnames_wf (db (publish_step cfg nsupdate st h)).
Proof.
  intros Hh Hst. unfold publish_step. cbv zeta.
  destruct (_ =? 0); simpl; [|exact Hst].
  intros k Hk. destruct (decide (hostname h = k)) as [<-|Hne]; [exact Hh|].
  rewrite lookup_insert_ne in Hk by exact Hne. by apply Hst.
Qed.

Lemma retire_step_wf (st : state) (k : string) :
  hostnames_wf (db st) -> hostnames_wf (db (retire_step cfg nsupdate st k)).
Proof.
  intros Hst. unfold retire_step. cbv zeta.
  destruct (_ =? 0); simpl; [|exact Hst].
  intros k' Hk'. apply Hst.
  destruct (decide (k = k')) as [->|Hne].
  - rewrite lookup_delete_eq in Hk'. by destruct Hk'.
  - by rewrite lookup_delete_ne in Hk'.
Qed.

Lemma update_loop_wf (st : state) :
  hostnames_wf (db st) ->
  hostnames_wf (db (exec (update_loop cfg nsupdate requests_get) st)).
Proof.
  intros Hst. unfold exec. rewrite update_loop_eq.
  destruct (fetch_routers requests_get st) as [[routers|e] st1]; simpl; [|exact Hst].
  apply (fold_left_invariant (fun s => hostnames_wf (db s)) (fun _ => True)).
  - intros s k _. apply retire_step_wf.
  - apply Forall_forall. auto.
  - apply (fold_left_invariant (fun s => hostnames_wf (db s))
             (fun h => hostname h <> "" /\ Str.no_LF (hostname h) = true)).
    + intros s h Hh. by apply publish_step_wf.
    + apply extract_hostnames_wf.
    + exact Hst.
Qed.

(** X17. However many turns the loop makes and whatever fails in them,
    a store whose hostnames are non-empty texts without line feed stays
    such a store: every hostname later handed to the cleanup fits on
    one line of the transcript. *)
Theorem main_loop_keeps_hostnames_wf (n : nat) (st : state) :
  hostnames_wf (db st) ->
  hostnames_wf (db (exec (main_loop cfg nsupdate requests_get n) st)).
Proof.
  revert st. induction n as [|n IH]; intros st Hst; [exact Hst|].
  unfold exec. simpl. unfold bind. rewrite iteration_eq.
  destruct (sleep_cases (UPDATE_INTERVAL cfg)
              (exec (update_loop cfg nsupdate requests_get) st)) as [H|[e H]]; rewrite H.
  - apply IH. simpl. by apply update_loop_wf.
  - simpl. by apply update_loop_wf.
Qed.

Lemma upsert_all_agree (hs : list Hostname) (d d' : gmap string string) :
  (forall k, ~ In k (map hostname hs) -> d !! k = d' !! k) ->
  upsert_all hs d = upsert_all hs d'.
Proof.
  revert d d'. induction hs as [|h hs IH]; intros d d' Hagree.
  - apply map_eq. intros k. apply Hagree. simpl. tauto.
  - unfold upsert_all in *. simpl. apply IH. intros k Hk. unfold upsert.
    destruct (decide (hostname h = k)) as [->|Hne].
    + by rewrite !lookup_insert_eq.
    + rewrite !lookup_insert_ne by exact Hne. apply Hagree. simpl. tauto.
Qed.

(** X19. When every add succeeds, publishing the same records a second
    time leaves the store as the first time did. *)
Theorem publish_twice (hostnames : list Hostname) (st : state) :
  (forall tr k, returncode (nsupdate tr (nsupdate_input cfg k false)) = 0) ->
  db (exec (publish cfg nsupdate hostnames) (exec (publish cfg nsupdate hostnames) st))
    = db (exec (publish cfg nsupdate hostnames) st).
Proof.
  intros Hok. unfold exec. rewrite !publish_eq. simpl.
  rewrite !(publish_fold_db_ok cfg nsupdate _ _ Hok).
  apply upsert_all_agree. intros k Hk. by apply upsert_all_other.
Qed.

Lemma iteration_extends (st : state) :
  extends cfg st (exec (iteration cfg nsupdate requests_get) st).
Proof.
  unfold exec. rewrite iteration_eq.
  destruct (sleep_cases (UPDATE_INTERVAL cfg)
              (exec (update_loop cfg nsupdate requests_get) st)) as [H|[e H]];
    rewrite H; simpl; [|apply update_loop_extends].
  eapply extends_trans; [apply update_loop_extends|].
  exists [Sleep (UPDATE_INTERVAL cfg)]. simpl. auto.
Qed.

Lemma iteration_raises_or_returns (st : state) :
  iteration cfg nsupdate requests_get st
    = (Return tt, exec (iteration cfg nsupdate requests_get) st) \/
  exists e, iteration cfg nsupdate requests_get st
    = (Raise e, exec (iteration cfg nsupdate requests_get) st).
Proof.
  unfold exec. rewrite iteration_eq.
  destruct (sleep_cases (UPDATE_INTERVAL cfg)
              (exec (update_loop cfg nsupdate requests_get) st)) as [H|[e H]];
    rewrite H; simpl; eauto.
Qed.

(** X20. Over any number of turns of the loop, with or without
    failures, every store write in the trace comes immediately after
    the successful run of nsupdate for that hostname and mode, and the
    store is the one these writes build from the store at the start. *)
Theorem run_writes_follow_mutations (n : nat) (st : state) :
  exists new,
    trace (exec (main_loop cfg nsupdate requests_get n) st) = trace st ++ new /\
    writes_justified cfg None new /\
    db (exec (main_loop cfg nsupdate requests_get n) st) = replay new (db st).
Proof.
  change (extends cfg st (exec (main_loop cfg nsupdate requests_get n) st)).
  revert st. induction n as [|n IH]; intros st; [apply extends_refl|].
  unfold exec. simpl. unfold bind.
  destruct (iteration_raises_or_returns st) as [H|[e H]]; rewrite H.
  - eapply extends_trans; [apply iteration_extends | apply IH].
  - simpl. apply iteration_extends.
Qed.


End MoreStore.

(** ** The configured entry points *)

Module EnvFacts.
Import Env.

Lemma split_cons (sep : ascii) (s : string) : exists x xs, split sep s = x :: xs.
Proof.
  induction s as [|c s IH]; simpl; [eauto|].
  destruct (Ascii.eqb c sep); [eauto|].
  destruct IH as (x & xs & ->). eauto.
Qed.

Lemma join_cons_ne (sep x : string) (l : list string) :
  l <> [] -> Str.join sep (x :: l) = x +:+ sep +:+ Str.join sep l.
Proof. destruct l; [congruence | reflexivity]. Qed.

Lemma join_split (sep : ascii) (s : string) :
  Str.join (String sep "") (split sep s) = s.
Proof.
  induction s as [|c s IH]; [reflexivity|].
  simpl split. destruct (Ascii.eqb c sep) eqn:Hc.
  - apply Ascii.eqb_eq in Hc as ->.
    destruct (split_cons sep s) as (x & xs & E). rewrite E in IH |- *.
    rewrite join_cons_ne by discriminate. by rewrite IH.
  - destruct (split_cons sep s) as (x & xs & E). rewrite E in IH |- *.
    destruct xs as [|y xs].
    + simpl in IH |- *. by rewrite IH.
    + rewrite StrFacts.join_cons2 in IH |- *.
      rewrite StrFacts.app_cons. by rewrite IH.
Qed.

Lemma split_piece (sep : ascii) (s x : string) :
  In x (split sep s) -> has_char sep x = false.
Proof.
  revert x. induction s as [|c s IH]; intros x; simpl.
  - intros [<-|[]]. reflexivity.
  - destruct (Ascii.eqb c sep) eqn:Hc.
    + intros [<-|Hin]; [reflexivity | by apply IH].
    + destruct (split_cons sep s) as (y & ys & E). rewrite E in IH |- *.
      intros [<-|Hin].
      * simpl. rewrite Hc. apply IH. by left.
      * apply IH. by right.
Qed.

End EnvFacts.

(** X18. The configured entry points are the pieces of the variable
    between its commas: there is always at least one (the empty text
    gives the one entry point that is the empty text), no piece holds a
    comma, and joined by commas they give the text of the variable
    back, so nothing is trimmed or dropped. *)
Theorem entrypoints_of_env_pieces (value : option string) :
  Env.entrypoints_of_env value <> [] /\
  Forall (fun ep => Env.has_char ","%char ep = false) (Env.entrypoints_of_env value) /\
  Str.join "," (Env.entrypoints_of_env value) = Env.getenv value "web,websecure".
Proof.
  unfold Env.entrypoints_of_env. split; [|split].
  - destruct (EnvFacts.split_cons ","%char (Env.getenv value "web,websecure"))
      as (x & xs & ->). discriminate.
  - apply List.Forall_forall. intros ep. apply EnvFacts.split_piece.
  - apply (EnvFacts.join_split ","%char).
Qed.

(** ** The transcript and the hostname *)

Lemma app_inv_tail_str (a b t : string) : a +:+ t = b +:+ t -> a = b.
Proof.
  revert b. induction a as [|x a IH]; intros b H.
  - destruct b as [|y b]; [reflexivity|].
    apply (f_equal String.length) in H.
    rewrite !StrFacts.length_app in H. simpl in H. lia.
  - destruct b as [|y b].
    + apply (f_equal String.length) in H.
      rewrite !StrFacts.length_app in H. simpl in H. lia.
    + rewrite !StrFacts.app_cons in H. injection H as -> H. f_equal. by apply IH.
Qed.

(** X21. For hostnames and a configuration that fit on a line each, the
    transcript tells the hostname and the mode: two calls of the
    mutator write the same text to nsupdate only for the same hostname
    in the same mode. *)
Theorem nsupdate_input_inj (cfg : Config) (h h' : string) (delete delete' : bool) :
  one_line_each cfg h -> one_line_each cfg h' ->
  nsupdate_input cfg h delete = nsupdate_input cfg h' delete' ->
  h = h' /\ delete = delete'.
Proof.
  intros Hh Hh' E. apply (f_equal Str.lines) in E.
  rewrite !nsupdate_input_lines in E by assumption.
  assert (Hdel : forall a b : string, delete_line a = delete_line b -> a = b).
  { unfold delete_line. intros a b H.
    apply String.app_inj in H. by apply app_inv_tail_str in H. }
  destruct delete, delete'; simpl in E.
  - split; [apply Hdel; congruence | reflexivity].
  - assert (H : "send" = add_line cfg h') by congruence.
    unfold add_line in H. discriminate H.
  - assert (H : add_line cfg h = "send") by congruence.
    unfold add_line in H. discriminate H.
  - split; [apply Hdel; congruence | reflexivity].
Qed.

(** ** One line, one hostname *)

Lemma finditer_from_after_match (c : ascii) (s g rest : string) :
  Re.match_here hostname_regex (String c s) = Some (g, rest) ->
  Re.finditer_from hostname_regex
    (String.length (String c s) - String.length rest - 1) s
  = Re.finditer_from hostname_regex 0 rest.
Proof.
  intros Hm. destruct (hostname_regex_match _ _ _ Hm) as (Hs & _ & _).
  rewrite StrFacts.app_cons in Hs. injection Hs as -> ->.
  replace ("ost(`" +:+ g +:+ "`)" +:+ rest) with (("ost(`" +:+ g +:+ "`)") +:+ rest)
    by (rewrite !StrFacts.app_assoc; reflexivity).
  rewrite <- (ReMore.finditer_from_skip hostname_regex ("ost(`" +:+ g +:+ "`)") rest).
  f_equal. cbn [String.length]. rewrite StrFacts.length_app. lia.
Qed.

(** Behind a match on a text without line feed nothing matches any more. *)
Lemma after_match_nothing (s g rest : string) :
  Str.no_LF s = true ->
  Re.match_here hostname_regex s = Some (g, rest) ->
  Re.finditer_from hostname_regex 0 rest = [].
Proof.
  intros Hnl Hm.
  destruct (Re.finditer_from hostname_regex 0 rest) as [|g2 l] eqn:E; [reflexivity|].
  exfalso.
  assert (Hin : In g2 (Re.finditer hostname_regex rest))
    by (unfold Re.finditer; rewrite E; by left).
  apply extracted_from_rule in Hin as (_ & _ & pre & post & Hrest).
  destruct (hostname_regex_match _ _ _ Hm) as (Hs & _ & _).
  set (g' := g +:+ "`)" +:+ pre +:+ "Host(`" +:+ g2).
  assert (Hs' : s = "Host(`" +:+ g' +:+ "`)" +:+ post).
  { subst g'. rewrite Hs, Hrest. rewrite !StrFacts.app_assoc. reflexivity. }
  assert (Hnl' : Str.no_LF g' = true).
  { rewrite Hs' in Hnl. rewrite !StrFacts.no_LF_app in Hnl.
    apply andb_prop in Hnl as [_ Hnl]. by apply andb_prop in Hnl as [Hnl _]. }
  pose proof (match_longest _ _ _ _ _ Hm Hs' Hnl') as Hle.
  subst g'. rewrite !StrFacts.length_app in Hle. simpl in Hle. lia.
Qed.

Lemma finditer_one_line (s : string) :
  Str.no_LF s = true -> (List.length (Re.finditer_from hostname_regex 0 s) <= 1)%nat.
Proof.
  induction s as [|c s IH]; intros Hnl; [simpl; lia|].
  destruct (Re.match_here hostname_regex (String c s)) as [[g rest]|] eqn:Hm.
  - rewrite (finditer_from_match _ _ _ _ _ Hm).
    rewrite (finditer_from_after_match _ _ _ _ Hm).
    rewrite (after_match_nothing _ _ _ Hnl Hm). simpl. lia.
  - cbn [Re.finditer_from]. rewrite Hm. apply IH.
    simpl in Hnl. by apply andb_prop in Hnl as [_ Hnl].
Qed.

(** X22. A rule without line feed yields at most one record, however
    many Host clauses it holds. *)
Theorem rule_on_one_line_yields_at_most_one (r : Router) :
  Str.no_LF (rule r) = true ->
  (List.length (extract_hostnames [r]) <= 1)%nat.
Proof.
  intros Hnl. unfold extract_hostnames. simpl.
  rewrite app_nil_r, length_map. by apply finditer_one_line.
Qed.

(** ** Instances of the further properties *)

Import Fixture.

Lemma extract_hostnames_sound_witness :
  In svc_hostname (extract_hostnames [svc; metrics]) /\
  In (router svc_hostname) [svc; metrics] /\ hostname svc_hostname <> "".
Proof.
  assert (H : In svc_hostname (extract_hostnames [svc; metrics])) by (left; reflexivity).
  split; [exact H|].
  destruct (extract_hostnames_sound [svc; metrics] svc_hostname H) as (Hr & Hne & _).
  split; [exact Hr | exact Hne].
Defined.

Lemma hostname_regex_longest_witness :
  Re.match_here hostname_regex two_hosts_rule
    = Some ("a.example.com`) || Host(`b.example.com", "") /\
  two_hosts_rule = "Host(`" +:+ "a.example.com" +:+ "`)" +:+ " || Host(`b.example.com`)" /\
  Str.no_LF "a.example.com" = true /\
  (String.length "a.example.com"
     <= String.length "a.example.com`) || Host(`b.example.com")%nat.
Proof.
  assert (H1 : Re.match_here hostname_regex two_hosts_rule
               = Some ("a.example.com`) || Host(`b.example.com", ""))
    by (vm_compute; reflexivity).
  assert (H2 : two_hosts_rule
               = "Host(`" +:+ "a.example.com" +:+ "`)" +:+ " || Host(`b.example.com`)")
    by reflexivity.
  assert (H3 : Str.no_LF "a.example.com" = true) by reflexivity.
  split; [exact H1|]. split; [exact H2|]. split; [exact H3|].
  exact (hostname_regex_longest _ _ _ _ _ H1 H2 H3).
Defined.

Lemma extract_hostnames_none_witness :
  (forall r, In r [route "r2" no_host_rule] ->
     forall pre post, rule r <> pre +:+ "Host(`" +:+ post) /\
  extract_hostnames [route "r2" no_host_rule] = [].
Proof.
  assert (H : forall r, In r [route "r2" no_host_rule] ->
                forall pre post, rule r <> pre +:+ "Host(`" +:+ post).
  { intros r [<-|[]] pre post H. simpl in H. unfold no_host_rule in H.
    repeat (destruct pre as [|? pre];
            [discriminate H | rewrite StrFacts.app_cons in H; injection H as _ H]).
    destruct pre; discriminate H. }
  split; [exact H|].
  exact (extract_hostnames_none [route "r2" no_host_rule] H).
Defined.

Lemma extract_clause_per_line_witness :
  rule svc = "Host(`" +:+ "svc.local" +:+ "`)" +:+ "" /\
  extract_hostnames [svc] = [svc_hostname].
Proof.
  assert (H : rule svc = "Host(`" +:+ "svc.local" +:+ "`)" +:+ "") by reflexivity.
  split; [exact H|].
  exact (extract_clause_per_line svc "svc.local" "" H
           ltac:(discriminate) eq_refl (or_introl eq_refl)).
Defined.

Lemma extracted_routers_allowed_witness :
  In svc_hostname (extract_hostnames (filter_routers default_config [svc; metrics])) /\
  exists ep, In ep (TRAEFIK_ENTRYPOINTS default_config) /\ In ep (entryPoints svc).
Proof.
  assert (H : In svc_hostname
                (extract_hostnames (filter_routers default_config [svc; metrics])))
    by (left; reflexivity).
  split; [exact H|].
  exact (proj2 (extracted_routers_allowed default_config [svc; metrics] svc_hostname H)).
Defined.

Lemma tick_ignores_bad_entry_witness :
  api_svc_bad [] = ParsedIterable ([Mapping svc] ++ NotMapping :: [Mapping metrics]) /\
  api_svc [] = ParsedIterable ([Mapping svc] ++ [Mapping metrics]) /\
  update_loop default_config always_ok api_svc_bad empty_state
    = update_loop default_config always_ok api_svc empty_state.
Proof.
  split; [reflexivity|]. split; [reflexivity|].
  exact (proj2 (proj2 (tick_ignores_bad_entry default_config always_ok api_svc_bad api_svc
                         empty_state [Mapping svc] [Mapping metrics] eq_refl eq_refl))).
Defined.

Lemma tick_runs_witness :
  fetch_routers api_svc {| db := persisted_xy; trace := [] |}
    = (Return [svc; metrics], {| db := persisted_xy; trace := [] |}) /\
  runs (trace (exec (update_loop default_config first_fails api_svc)
                 {| db := persisted_xy; trace := [] |}))
    = [nsupdate_input default_config "svc.local" false;
       nsupdate_input default_config "x.fritz.box" true;
       nsupdate_input default_config "y.fritz.box" true].
Proof.
  assert (H : fetch_routers api_svc {| db := persisted_xy; trace := [] |}
              = (Return [svc; metrics], {| db := persisted_xy; trace := [] |}))
    by reflexivity.
  split; [exact H|].
  rewrite (proj1 (tick_runs default_config first_fails api_svc _ _ H)).
  vm_compute. reflexivity.
Defined.

Lemma publish_last_writer_wins_witness :
  (forall tr k, returncode (always_ok tr (nsupdate_input default_config k false)) = 0) /\
  db (exec (publish default_config always_ok [svc_hostname; prom_hostname; svc_hostname])
        empty_state) !! "svc.local" = Some "r1".
Proof.
  assert (H : forall tr k,
             returncode (always_ok tr (nsupdate_input default_config k false)) = 0)
    by reflexivity.
  split; [exact H|].
  destruct (publish_last_writer_wins default_config always_ok
              [svc_hostname; prom_hostname; svc_hostname] empty_state H) as (_ & Hlast & _).
  apply (Hlast [svc_hostname; prom_hostname] svc_hostname []); [reflexivity|].
  simpl. tauto.
Defined.

Lemma tick_without_dns_keeps_store_witness :
  (forall tr input, returncode (always_fails tr input) <> 0) /\
  db (exec (update_loop default_config always_fails api_svc)
        {| db := stale_store; trace := [] |}) = stale_store.
Proof.
  assert (H : forall tr input, returncode (always_fails tr input) <> 0)
    by (intros tr input; simpl; lia).
  split; [exact H|].
  exact (tick_without_dns_keeps_store default_config always_fails api_svc
           {| db := stale_store; trace := [] |} H).
Defined.

Lemma tick_single_record_witness :
  (forall tr input, returncode (always_ok tr input) = 0) /\
  extract_hostnames (filter_routers default_config [svc; metrics]) = [svc_hostname] /\
  db (exec (update_loop default_config always_ok api_svc)
        {| db := stale_store; trace := [] |}) = {[ "svc.local" := "r1" ]}.
Proof.
  assert (H1 : forall tr input, returncode (always_ok tr input) = 0) by reflexivity.
  assert (H2 : extract_hostnames (filter_routers default_config [svc; metrics])
               = [svc_hostname]) by reflexivity.
  split; [exact H1|]. split; [exact H2|].
  exact (tick_single_record default_config always_ok api_svc
           {| db := stale_store; trace := [] |} [svc; metrics] svc_hostname H1 eq_refl H2).
Defined.

Lemma tick_retires_all_desired_witness :
  (forall tr k, returncode (always_ok tr (nsupdate_input default_config k true)) = 0) /\
  (2 <= List.length
          (extract_hostnames
             (filter_routers default_config [svc; route "r3" "Host(`c`)"])))%nat /\
  db (exec (update_loop default_config always_ok api_two) empty_state) !! "svc.local" = None.
Proof.
  assert (H1 : forall tr k,
             returncode (always_ok tr (nsupdate_input default_config k true)) = 0)
    by reflexivity.
  assert (H2 : (2 <= List.length
                  (extract_hostnames
                     (filter_routers default_config [svc; route "r3" "Host(`c`)"])))%nat)
    by (vm_compute; lia).
  split; [exact H1|]. split; [exact H2|].
  apply (proj2 (tick_retires_all_desired default_config always_ok api_two empty_state
                  [svc; route "r3" "Host(`c`)"] H1 eq_refl H2) svc_hostname).
  left. reflexivity.
Defined.

Lemma main_loop_keeps_hostnames_wf_witness :
  hostnames_wf (db empty_state) /\
  hostnames_wf (db (exec (main_loop default_config first_fails api_two 2) empty_state)).
Proof.
  assert (H : hostnames_wf (db empty_state)).
  { intros k [v Hk]. simpl in Hk. rewrite lookup_empty in Hk. discriminate Hk. }
  split; [exact H|].
  exact (main_loop_keeps_hostnames_wf default_config first_fails api_two 2 empty_state H).
Defined.

Lemma publish_twice_witness :
  (forall tr k, returncode (always_ok tr (nsupdate_input default_config k false)) = 0) /\
  db (exec (publish default_config always_ok [svc_hostname; prom_hostname])
        (exec (publish default_config always_ok [svc_hostname; prom_hostname]) empty_state))
  = db (exec (publish default_config always_ok [svc_hostname; prom_hostname]) empty_state).
Proof.
  assert (H : forall tr k,
             returncode (always_ok tr (nsupdate_input default_config k false)) = 0)
    by reflexivity.
  split; [exact H|].
  exact (publish_twice default_config always_ok [svc_hostname; prom_hostname] empty_state H).
Defined.

Lemma nsupdate_input_inj_witness :
  one_line_each default_config "svc.local" /\
  nsupdate_input default_config "svc.local" true
    = nsupdate_input default_config "svc.local" true /\
  ("svc.local" = "svc.local" /\ true = true).
Proof.
  assert (H : one_line_each default_config "svc.local") by (repeat split).
  assert (E : nsupdate_input default_config "svc.local" true
              = nsupdate_input default_config "svc.local" true) by reflexivity.
  split; [exact H|]. split; [exact E|].
  exact (nsupdate_input_inj default_config "svc.local" "svc.local" true true H H E).
Defined.

Lemma rule_on_one_line_witness :
  Str.no_LF (rule (route "r1" two_hosts_rule)) = true /\
  (List.length (extract_hostnames [route "r1" two_hosts_rule]) <= 1)%nat.
Proof.
  assert (H : Str.no_LF (rule (route "r1" two_hosts_rule)) = true) by reflexivity.
  split; [exact H|].
  exact (rule_on_one_line_yields_at_most_one (route "r1" two_hosts_rule) H).
Defined.

